(** * The session phase state machine, the session entity, the session
      store and the schema migrations of manfred: a shallow embedding and
      its properties.

    Embedded here:
    - package [session]: the phases and their transition table, the session
      entity and its operations, the SQLite-backed store (store.go);
    - package [store]: the schema migrations and their runner
      (migrations.go).

    Conventions of the embedding:
    - Go's [type Phase string] is a [string]; the seven phases are constants.
    - Go's [int] is a [Z] (no arithmetic is done on it, only comparison and
      printing); pointer-valued optional fields are [option]s.
    - [time.Time] is a [Z] (an instant on the wall clock); every call of
      [time.Now()] in the source is an explicit argument of the embedded
      function, in the order the source reads the clock.
    - A method that mutates its receiver and returns an [error] becomes a
      function returning the pair of the error (if any) and the receiver
      after the call, so that what a failing call leaves behind is visible.
    - The [context.Context] arguments are left out. *)

From stdpp Require Import base list sorting strings pretty gmap.
From Stdlib Require Import ZArith NArith Ascii Lia.

Open Scope string_scope.
Open Scope list_scope.
Open Scope Z_scope.

(* ===================================================================== *)
(** * Package session: phases                                             *)
(* ===================================================================== *)

(** [type Phase string] *)
Abbreviation Phase := string.

Definition PhasePlanning : Phase := "planning".
Definition PhaseAwaitingApproval : Phase := "awaiting_approval".
Definition PhaseImplementing : Phase := "implementing".
Definition PhaseInReview : Phase := "in_review".
Definition PhaseRevising : Phase := "revising".
Definition PhaseCompleted : Phase := "completed".
Definition PhaseError : Phase := "error".

Definition AllPhases : list Phase :=
  [PhasePlanning; PhaseAwaitingApproval; PhaseImplementing;
   PhaseInReview; PhaseRevising; PhaseCompleted; PhaseError].

Definition ActivePhases : list Phase :=
  [PhasePlanning; PhaseAwaitingApproval; PhaseImplementing;
   PhaseInReview; PhaseRevising].

(** [func (p Phase) IsValid() bool]: a switch over the seven constants. *)
Definition IsValid (p : Phase) : bool :=
  if decide (p = PhasePlanning) then true
  else if decide (p = PhaseAwaitingApproval) then true
  else if decide (p = PhaseImplementing) then true
  else if decide (p = PhaseInReview) then true
  else if decide (p = PhaseRevising) then true
  else if decide (p = PhaseCompleted) then true
  else if decide (p = PhaseError) then true
  else false.

(** [func (p Phase) IsTerminal() bool] *)
Definition IsTerminal (p : Phase) : bool :=
  bool_decide (p = PhaseCompleted) || bool_decide (p = PhaseError).

(** [func (p Phase) IsActive() bool] *)
Definition IsActive (p : Phase) : bool := IsValid p && negb (IsTerminal p).

(** [var validTransitions = map[Phase][]Phase{...}] *)
Definition validTransitions : gmap string (list Phase) :=
  <[PhasePlanning := [PhaseAwaitingApproval; PhaseError]]>
  (<[PhaseAwaitingApproval := [PhasePlanning; PhaseImplementing; PhaseError]]>
  (<[PhaseImplementing := [PhaseInReview; PhaseError]]>
  (<[PhaseInReview := [PhaseRevising; PhaseCompleted; PhaseError]]>
  (<[PhaseRevising := [PhaseInReview; PhaseError]]>
  (<[PhaseCompleted := []]>
  (<[PhaseError := [PhasePlanning]]> ∅)))))).

(** The loop [for _, a := range allowed { if a == target { return true } }]. *)
Fixpoint phase_in (target : Phase) (allowed : list Phase) : bool :=
  match allowed with
  | [] => false
  | a :: rest => if decide (a = target) then true else phase_in target rest
  end.

(** [func (p Phase) CanTransitionTo(target Phase) bool] *)
Definition CanTransitionTo (p target : Phase) : bool :=
  match validTransitions !! p with
  | None => false
  | Some allowed => phase_in target allowed
  end.

(** [func (p Phase) ValidTransitions() []Phase]: a missing key reads as the
    nil slice. *)
Definition ValidTransitions (p : Phase) : list Phase :=
  default [] (validTransitions !! p).

(** [type TransitionError struct { From, To Phase }] *)
Record TransitionError := mkTransitionError { From : Phase; To : Phase }.

(** [func ValidateTransition(from, to Phase) error]; [None] is [nil]. *)
Definition ValidateTransition (from to : Phase) : option TransitionError :=
  if negb (CanTransitionTo from to)
  then Some {| From := from; To := to |}
  else None.

(** The transition table of the specification (section 4.1), edge by edge. *)
Definition transition_table : list (Phase * Phase) :=
  [ ("planning", "awaiting_approval"); ("planning", "error");
    ("awaiting_approval", "planning"); ("awaiting_approval", "implementing");
    ("awaiting_approval", "error");
    ("implementing", "in_review"); ("implementing", "error");
    ("in_review", "revising"); ("in_review", "completed"); ("in_review", "error");
    ("revising", "in_review"); ("revising", "error");
    ("error", "planning") ].

(* ===================================================================== *)
(** * Package session: the session entity                                 *)
(* ===================================================================== *)

(** Instants of the wall clock, as [time.Now().UTC()] returns them. *)
Abbreviation Time := Z.

(** [type Session struct]. The field [Phase] of the source is [SPhase] here,
    the type [Phase] having taken the name. *)
Record Session := mkSession {
  ID : string;
  RepoOwner : string;
  RepoName : string;
  IssueNumber : Z;
  PRNumber : option Z;
  SPhase : Phase;
  Branch : string;
  ContainerID : option string;
  PlanContent : option string;
  ErrorMessage : option string;
  CreatedAt : Time;
  LastActivity : Time
}.

(** [fmt.Sprintf("%d", n)]: decimal digits, with a leading minus sign for a
    negative number. *)
Definition sprint_d (n : Z) : string := pretty n.

(** [func GenerateSessionID(owner, repo string, issueNumber int) string]:
    [fmt.Sprintf("%s-%s-issue-%d", owner, repo, issueNumber)] *)
Definition GenerateSessionID (owner repo : string) (issueNumber : Z) : string :=
  owner +:+ "-" +:+ repo +:+ "-issue-" +:+ sprint_d issueNumber.

(** [func GenerateBranchName(issueNumber int) string]:
    [fmt.Sprintf("claude/issue-%d", issueNumber)] *)
Definition GenerateBranchName (issueNumber : Z) : string :=
  "claude/issue-" +:+ sprint_d issueNumber.

(** [func NewSession(owner, repo string, issueNumber int) *Session];
    [now] is the one reading of the clock. *)
Definition NewSession (now : Time) (owner repo : string) (issueNumber : Z)
  : Session :=
  {| ID := GenerateSessionID owner repo issueNumber;
     RepoOwner := owner;
     RepoName := repo;
     IssueNumber := issueNumber;
     PRNumber := None;
     SPhase := PhasePlanning;
     Branch := GenerateBranchName issueNumber;
     ContainerID := None;
     PlanContent := None;
     ErrorMessage := None;
     CreatedAt := now;
     LastActivity := now |}.

(** [func (s *Session) RepoFullName() string] *)
Definition RepoFullName (s : Session) : string :=
  RepoOwner s +:+ "/" +:+ RepoName s.

(** Field assignments [s.F = v]. *)
Definition set_SPhase (p : Phase) (s : Session) : Session :=
  mkSession (ID s) (RepoOwner s) (RepoName s) (IssueNumber s) (PRNumber s)
            p (Branch s) (ContainerID s) (PlanContent s) (ErrorMessage s)
            (CreatedAt s) (LastActivity s).
Definition set_LastActivity (t : Time) (s : Session) : Session :=
  mkSession (ID s) (RepoOwner s) (RepoName s) (IssueNumber s) (PRNumber s)
            (SPhase s) (Branch s) (ContainerID s) (PlanContent s)
            (ErrorMessage s) (CreatedAt s) t.
Definition set_PRNumber (n : option Z) (s : Session) : Session :=
  mkSession (ID s) (RepoOwner s) (RepoName s) (IssueNumber s) n
            (SPhase s) (Branch s) (ContainerID s) (PlanContent s)
            (ErrorMessage s) (CreatedAt s) (LastActivity s).
Definition set_ContainerID (c : option string) (s : Session) : Session :=
  mkSession (ID s) (RepoOwner s) (RepoName s) (IssueNumber s) (PRNumber s)
            (SPhase s) (Branch s) c (PlanContent s) (ErrorMessage s)
            (CreatedAt s) (LastActivity s).
Definition set_PlanContent (p : option string) (s : Session) : Session :=
  mkSession (ID s) (RepoOwner s) (RepoName s) (IssueNumber s) (PRNumber s)
            (SPhase s) (Branch s) (ContainerID s) p (ErrorMessage s)
            (CreatedAt s) (LastActivity s).
Definition set_ErrorMessage (e : option string) (s : Session) : Session :=
  mkSession (ID s) (RepoOwner s) (RepoName s) (IssueNumber s) (PRNumber s)
            (SPhase s) (Branch s) (ContainerID s) (PlanContent s) e
            (CreatedAt s) (LastActivity s).

(** [func (s *Session) TransitionTo(target Phase) error] *)
Definition TransitionTo (now : Time) (target : Phase) (s : Session)
  : option TransitionError * Session :=
  match ValidateTransition (SPhase s) target with
  | Some err => (Some err, s)
  | None => (None, set_LastActivity now (set_SPhase target s))
  end.

(** [func (s *Session) SetPlan(plan string) error] *)
Definition SetPlan (now : Time) (plan : string) (s : Session)
  : option TransitionError * Session :=
  match TransitionTo now PhaseAwaitingApproval s with
  | (Some err, s') => (Some err, s')
  | (None, s') => (None, set_PlanContent (Some plan) s')
  end.

(** [func (s *Session) Approve() error] *)
Definition Approve (now : Time) (s : Session)
  : option TransitionError * Session :=
  TransitionTo now PhaseImplementing s.

(** [func (s *Session) SetPRNumber(prNumber int)] *)
Definition SetPRNumber (now : Time) (prNumber : Z) (s : Session) : Session :=
  set_LastActivity now (set_PRNumber (Some prNumber) s).

(** [func (s *Session) SetError(msg string) error]. The clock is read by
    [TransitionTo] when the transition is legal ([now1]) and once more at
    the end ([now2]). The returned error is always [nil]. *)
Definition SetError (now1 now2 : Time) (msg : string) (s : Session)
  : option TransitionError * Session :=
  let s1 :=
    match TransitionTo now1 PhaseError s with
    | (Some _, s') => set_SPhase PhaseError s'
    | (None, s') => s'
    end in
  (None, set_LastActivity now2 (set_ErrorMessage (Some msg) s1)).

(** [func (s *Session) SetContainerID(containerID string)] *)
Definition SetContainerID (now : Time) (containerID : string) (s : Session)
  : Session :=
  set_LastActivity now (set_ContainerID (Some containerID) s).

(** [func (s *Session) ClearContainerID()] *)
Definition ClearContainerID (now : Time) (s : Session) : Session :=
  set_LastActivity now (set_ContainerID None s).

(** [func (s *Session) Touch()] *)
Definition Touch (now : Time) (s : Session) : Session :=
  set_LastActivity now s.

(** [func (s *Session) Validate() error]; the result is the message of the
    error, [None] for [nil]. *)
Definition Validate (s : Session) : option string :=
  if decide (ID s = "") then Some "session ID is required"
  else if decide (RepoOwner s = "") then Some "repository owner is required"
  else if decide (RepoName s = "") then Some "repository name is required"
  else if decide (IssueNumber s <= 0) then Some "issue number must be positive"
  else if negb (IsValid (SPhase s)) then Some ("invalid phase: " +:+ SPhase s)
  else if decide (Branch s = "") then Some "branch name is required"
  else None.


(** ** Sequences of entity operations

    A session that is "mutated only through the entity's public operations"
    is the result of running a list of the operations below on it. Every
    operation carries the readings of the clock that its call takes. *)
Inductive Op :=
| OpTransitionTo (now : Time) (target : Phase)
| OpSetPlan (now : Time) (plan : string)
| OpApprove (now : Time)
| OpSetError (now1 now2 : Time) (msg : string)
| OpSetPRNumber (now : Time) (prNumber : Z)
| OpSetContainerID (now : Time) (containerID : string)
| OpClearContainerID (now : Time)
| OpTouch (now : Time).

(** The session after the call (whether or not the call returned an error). *)
Definition apply_op (o : Op) (s : Session) : Session :=
  match o with
  | OpTransitionTo now target => snd (TransitionTo now target s)
  | OpSetPlan now plan => snd (SetPlan now plan s)
  | OpApprove now => snd (Approve now s)
  | OpSetError now1 now2 msg => snd (SetError now1 now2 msg s)
  | OpSetPRNumber now n => SetPRNumber now n s
  | OpSetContainerID now c => SetContainerID now c s
  | OpClearContainerID now => ClearContainerID now s
  | OpTouch now => Touch now s
  end.


Definition run_ops (ops : list Op) (s : Session) : Session :=
  fold_left (λ acc o, apply_op o acc) ops s.



(* ===================================================================== *)
(** * Package session: events, filters and the SQLite store               *)
(* ===================================================================== *)

(** [type EventType string] and its constants. *)
Abbreviation EventType := string.
Definition EventTypePhaseChange : EventType := "phase_change".
Definition EventTypeCommentPosted : EventType := "comment_posted".
Definition EventTypeCommentReceived : EventType := "comment_received".
Definition EventTypePRCreated : EventType := "pr_created".
Definition EventTypeError : EventType := "error".
Definition EventTypeContainerStart : EventType := "container_start".
Definition EventTypeContainerStop : EventType := "container_stop".

(** [type SessionEvent struct]; the fields carry the prefix [Ev], their
    names being those of [Session] otherwise. *)
Record SessionEvent := mkSessionEvent {
  EvID : Z;
  EvSessionID : string;
  EvType : EventType;
  EvPayload : string;
  EvCreatedAt : Time
}.

(** [type SessionFilter struct]; [FRepoOwner], [FRepoName] and [FPhase] are
    the fields [RepoOwner], [RepoName] and [Phase] of the source. *)
Record SessionFilter := mkSessionFilter {
  FRepoOwner : string;
  FRepoName : string;
  FPhase : option Phase;
  ActiveOnly : bool;
  Limit : Z;
  Offset : Z
}.

(** ** The database

    The two tables that migrations 1 and 2 create, as the lists of their
    rows in insertion order, and the counter that [AUTOINCREMENT] keeps for
    [session_events.id]. A row of [sessions] holds the twelve columns of a
    [Session]. The connection runs with [PRAGMA foreign_keys=ON] (set by
    [store.Open] and [store.OpenInMemory]), so that the reference
    [session_events.session_id REFERENCES sessions(id) ON DELETE CASCADE] is
    enforced. Faults of the storage itself (I/O errors, a cancelled context)
    are outside this model: a statement fails only on a constraint. *)
Record DB := mkDB {
  sessions : list Session;
  session_events : list SessionEvent;
  last_event_id : Z
}.

Definition empty_db : DB := mkDB [] [] 0.

(** Errors of the SQL engine, with the message SQLite gives them. *)
Inductive SqlError :=
| SqlUniqueFailed (columns : string)
| SqlForeignKeyFailed.

Definition sql_error_message (e : SqlError) : string :=
  match e with
  | SqlUniqueFailed columns => "UNIQUE constraint failed: " +:+ columns
  | SqlForeignKeyFailed => "FOREIGN KEY constraint failed"
  end.

(** [strings.Contains(s, substr)] *)
Fixpoint strings_Contains (s substr : string) : bool :=
  String.prefix substr s ||
  match s with
  | EmptyString => false
  | String _ rest => strings_Contains rest substr
  end.

(** The [WHERE] clauses [id = ?] and
    [repo_owner = ? AND repo_name = ? AND issue_number = ?]. *)
Definition same_id (id : string) (row : Session) : Prop := ID row = id.
Definition same_issue (owner repo : string) (issueNumber : Z) (row : Session)
  : Prop :=
  RepoOwner row = owner ∧ RepoName row = repo ∧ IssueNumber row = issueNumber.

Global Instance same_id_dec id row : Decision (same_id id row).
Proof. unfold same_id. apply _. Defined.
Global Instance same_issue_dec owner repo n row :
  Decision (same_issue owner repo n row).
Proof. unfold same_issue. apply _. Defined.

(** [INSERT INTO sessions (...) VALUES (...)]: the primary key [id] and
    [UNIQUE(repo_owner, repo_name, issue_number)] are checked, then the row
    is added. *)
Definition sql_insert_session (row : Session) (db : DB) : SqlError + DB :=
  if decide (Exists (same_id (ID row)) (sessions db))
  then inl (SqlUniqueFailed "sessions.id")
  else if decide (Exists (same_issue (RepoOwner row) (RepoName row)
                                     (IssueNumber row)) (sessions db))
  then inl (SqlUniqueFailed
    "sessions.repo_owner, sessions.repo_name, sessions.issue_number")
  else inr (mkDB (sessions db ++ [row]) (session_events db) (last_event_id db)).

(** ** The payload of an event

    [RecordEvent] takes its payload as an [interface{}] and renders it with
    [json.Marshal] of package encoding/json, which is not part of the
    repository: it renders a value by its dynamic type, or refuses it with
    an error (a channel, a function, a floating point NaN). A type whose
    values are handed to [RecordEvent] therefore comes with its
    [json_Marshal], and a non-nil [interface{}] is a value together with
    its dynamic type; [option Payload] adds the nil interface. *)
Record JsonError := mkJsonError { json_error : string }.

Class JSONMarshal (A : Type) := json_Marshal : A → JsonError + string.

Inductive Payload :=
| payload_of {A : Type} `{JSONMarshal A} (v : A).

(** Three dynamic types: [json.Marshal] renders a Go [bool] as [true] or
    [false] and a Go [int] in decimal, and refuses a [chan int] with an
    [UnsupportedTypeError]. *)
Global Instance json_Marshal_bool : JSONMarshal bool :=
  λ b, inr (if b then "true" else "false").

Global Instance json_Marshal_int : JSONMarshal Z :=
  λ n, inr (sprint_d n).

Inductive chan_int := make_chan_int.

Global Instance json_Marshal_chan_int : JSONMarshal chan_int :=
  λ _, inl (mkJsonError "json: unsupported type: chan int").

(** Errors the store returns, one constructor for each [fmt.Errorf] of
    store.go that this model can reach, and their messages. *)
Inductive StoreError :=
| ErrInvalidSession (reason : string)
| ErrSessionExists (owner repo : string) (issueNumber : Z)
| ErrCreateSession (cause : SqlError)
| ErrSessionNotFound (id : string)
| ErrMarshalPayload (cause : JsonError)
| ErrRecordEvent (cause : SqlError).

Definition Error (e : StoreError) : string :=
  match e with
  | ErrInvalidSession reason => "invalid session: " +:+ reason
  | ErrSessionExists owner repo n =>
      "session already exists for " +:+ owner +:+ "/" +:+ repo +:+ "#"
        +:+ sprint_d n
  | ErrCreateSession cause => "create session: " +:+ sql_error_message cause
  | ErrSessionNotFound id => "session not found: " +:+ id
  | ErrMarshalPayload cause => "marshal event payload: " +:+ json_error cause
  | ErrRecordEvent cause => "record event: " +:+ sql_error_message cause
  end.

(** [func (s *SQLiteStore) Create(ctx, sess *Session) error] *)
Definition Create (sess : Session) (db : DB) : option StoreError * DB :=
  match Validate sess with
  | Some err => (Some (ErrInvalidSession err), db)
  | None =>
      match sql_insert_session sess db with
      | inl err =>
          if strings_Contains (sql_error_message err) "UNIQUE constraint failed"
          then (Some (ErrSessionExists (RepoOwner sess) (RepoName sess)
                                       (IssueNumber sess)), db)
          else (Some (ErrCreateSession err), db)
      | inr db' => (None, db')
      end
  end.

(** [QueryRowContext(...).Scan(...)]: the first row of the result, or
    [sql.ErrNoRows], which [Get] and [GetByIssue] turn into [nil, nil]. *)
Definition Get (id : string) (db : DB) : option Session :=
  head (filter (same_id id) (sessions db)).

Definition GetByIssue (owner repo : string) (issueNumber : Z) (db : DB)
  : option Session :=
  head (filter (same_issue owner repo issueNumber) (sessions db)).

(** [UPDATE sessions SET pr_number, phase, container_id, plan_content,
    error_message, last_activity WHERE id = ?] *)
Definition update_row (sess row : Session) : Session :=
  if decide (same_id (ID sess) row)
  then mkSession (ID row) (RepoOwner row) (RepoName row) (IssueNumber row)
                 (PRNumber sess) (SPhase sess) (Branch row) (ContainerID sess)
                 (PlanContent sess) (ErrorMessage sess) (CreatedAt row)
                 (LastActivity sess)
  else row.

(** [func (s *SQLiteStore) Update(ctx, sess *Session) error] *)
Definition Update (sess : Session) (db : DB) : option StoreError * DB :=
  match Validate sess with
  | Some err => (Some (ErrInvalidSession err), db)
  | None =>
      let rows := length (filter (same_id (ID sess)) (sessions db)) in
      let db' := mkDB (update_row sess <$> sessions db) (session_events db)
                      (last_event_id db) in
      if decide (rows = 0%nat)
      then (Some (ErrSessionNotFound (ID sess)), db')
      else (None, db')
  end.

(** [func (s *SQLiteStore) Delete(ctx, id string) error]:
    [DELETE FROM sessions WHERE id = ?] removes the rows of that id and, by
    [ON DELETE CASCADE], the events whose [session_id] refers to a removed
    row; [RowsAffected] counts the removed session rows. *)
Definition Delete (id : string) (db : DB) : option StoreError * DB :=
  let deleted := filter (same_id id) (sessions db) in
  let db' :=
    mkDB (filter (λ row, ¬ same_id id row) (sessions db))
         (filter (λ ev, ¬ Exists (same_id (EvSessionID ev)) deleted)
                 (session_events db))
         (last_event_id db) in
  if decide (length deleted = 0%nat)
  then (Some (ErrSessionNotFound id), db')
  else (None, db').

(** The conditions [List] and [Count] collect (both build the same slice),
    joined with [" AND "] into the [WHERE] clause. *)
Definition filter_conditions (f : SessionFilter) : list (Session → bool) :=
  (if decide (FRepoOwner f ≠ "")
   then [λ row, bool_decide (RepoOwner row = FRepoOwner f)] else []) ++
  (if decide (FRepoName f ≠ "")
   then [λ row, bool_decide (RepoName row = FRepoName f)] else []) ++
  (match FPhase f with
   | Some p => [λ row, bool_decide (SPhase row = p)]
   | None => []
   end) ++
  (if ActiveOnly f
   then [λ row, negb (bool_decide (SPhase row = PhaseCompleted) ||
                      bool_decide (SPhase row = PhaseError))]
   else []).

Definition sql_where (conditions : list (Session → bool)) (row : Session)
  : bool :=
  forallb (λ c, c row) conditions.

(** [ORDER BY last_activity DESC]: [a] may come before [b]. SQLite leaves
    the order of rows with equal keys open; the model sorts by a merge
    sort. *)
Definition last_activity_desc (a b : Session) : Prop :=
  LastActivity b ≤ LastActivity a.

Global Instance last_activity_desc_dec a b : Decision (last_activity_desc a b).
Proof. unfold last_activity_desc. apply _. Defined.

(** [LIMIT n], with [OFFSET m] only inside the branch of a positive
    limit. *)
Definition sql_limit_offset (f : SessionFilter) (rows : list Session)
  : list Session :=
  if decide (0 < Limit f) then
    if decide (0 < Offset f)
    then take (Z.to_nat (Limit f)) (drop (Z.to_nat (Offset f)) rows)
    else take (Z.to_nat (Limit f)) rows
  else rows.

(** [func (s *SQLiteStore) List(ctx, filter SessionFilter) ([]Session, error)] *)
Definition List (f : SessionFilter) (db : DB) : list Session :=
  sql_limit_offset f
    (merge_sort last_activity_desc
       (filter (λ row, sql_where (filter_conditions f) row = true)
               (sessions db))).

(** [func (s *SQLiteStore) Count(ctx, filter SessionFilter) (int, error)] *)
Definition Count (f : SessionFilter) (db : DB) : Z :=
  Z.of_nat (length (filter (λ row, sql_where (filter_conditions f) row = true)
                           (sessions db))).

(** [INSERT INTO session_events (session_id, event_type, payload,
    created_at) VALUES (...)]: the reference to [sessions(id)] is checked,
    then the row is added under the next id of [AUTOINCREMENT]. *)
Definition sql_insert_event (sessionID : string) (eventType : EventType)
    (payloadJSON : string) (now : Time) (db : DB) : SqlError + DB :=
  if decide (Exists (same_id sessionID) (sessions db))
  then inr (mkDB (sessions db)
                 (session_events db ++
                    [mkSessionEvent (last_event_id db + 1) sessionID eventType
                                    payloadJSON now])
                 (last_event_id db + 1))
  else inl SqlForeignKeyFailed.

(** The head of [RecordEvent]: [payloadJSON] stays the empty string for a
    nil payload; a payload that is not nil is rendered by [json.Marshal],
    which may fail. *)
Definition marshal_payload (payload : option Payload) : JsonError + string :=
  match payload with
  | Some (payload_of v) => json_Marshal v
  | None => inr ""
  end.

(** [func (s *SQLiteStore) RecordEvent(ctx, sessionID, eventType, payload)].
    The call returns before the database is used when [json.Marshal]
    refuses the payload. [now] is the reading of the clock. The insert fails
    when no session has the id (foreign key). *)
Definition RecordEvent (now : Time) (sessionID : string)
    (eventType : EventType) (payload : option Payload) (db : DB)
  : option StoreError * DB :=
  match marshal_payload payload with
  | inl err => (Some (ErrMarshalPayload err), db)
  | inr payloadJSON =>
      match sql_insert_event sessionID eventType payloadJSON now db with
      | inl err => (Some (ErrRecordEvent err), db)
      | inr db' => (None, db')
      end
  end.

(** [ORDER BY created_at ASC] *)
Definition created_at_asc (a b : SessionEvent) : Prop :=
  EvCreatedAt a ≤ EvCreatedAt b.

Global Instance created_at_asc_dec a b : Decision (created_at_asc a b).
Proof. unfold created_at_asc. apply _. Defined.

(** [func (s *SQLiteStore) GetEvents(ctx, sessionID string)] *)
Definition GetEvents (sessionID : string) (db : DB) : list SessionEvent :=
  merge_sort created_at_asc
    (filter (λ ev, EvSessionID ev = sessionID) (session_events db)).

(** ** The filter of the specification

    What the specification says [list] and [count] select: the conjunction
    of the conditions that are set in the filter. *)
Definition matches (f : SessionFilter) (row : Session) : Prop :=
  (FRepoOwner f ≠ "" → RepoOwner row = FRepoOwner f) ∧
  (FRepoName f ≠ "" → RepoName row = FRepoName f) ∧
  match FPhase f with Some p => SPhase row = p | None => True end ∧
  (ActiveOnly f = true →
   SPhase row ≠ PhaseCompleted ∧ SPhase row ≠ PhaseError).

Global Instance matches_dec f row : Decision (matches f row).
Proof. unfold matches. destruct (FPhase f); apply _. Defined.

(** What the specification says of limit and offset ("orders by
    lastActivity descending, then applies limit/offset"): the first [Offset]
    rows are skipped, then at most [Limit] rows are kept; a limit or an
    offset that is not positive is not set. *)
Definition spec_limit_offset (f : SessionFilter) (rows : list Session)
  : list Session :=
  let skipped := drop (Z.to_nat (Offset f)) rows in
  if decide (0 < Limit f) then take (Z.to_nat (Limit f)) skipped else skipped.

(* ===================================================================== *)
(** * Package store: schema migrations                                    *)
(* ===================================================================== *)

(** [type Migration struct]. The SQL of [Up] is a sequence of
    [CREATE TABLE/INDEX IF NOT EXISTS] statements and is kept as the list of
    the names it creates; [Down] is a sequence of [DROP ... IF EXISTS] and is
    kept as the list of the names it drops. *)
Record Migration := mkMigration {
  Version : Z;
  Description : string;
  Up : list string;
  Down : list string
}.

(** [var migrations = []Migration{...}] *)
Definition migrations : list Migration :=
  [ mkMigration 1 "Create sessions table"
      ["sessions"; "idx_sessions_repo"; "idx_sessions_phase";
       "idx_sessions_last_activity"]
      ["idx_sessions_last_activity"; "idx_sessions_phase";
       "idx_sessions_repo"; "sessions"];
    mkMigration 2 "Create session_events table"
      ["session_events"; "idx_session_events_session";
       "idx_session_events_type"]
      ["idx_session_events_type"; "idx_session_events_session";
       "session_events"];
    mkMigration 3 "Create schema_migrations table"
      ["schema_migrations"]
      ["schema_migrations"] ].

(** The schema of a database file: the tables and indexes that exist (other
    than [schema_migrations]), and the table [schema_migrations] when it
    exists, as the list of its rows (version, description) in insertion
    order. *)
Record Database := mkDatabase {
  objects : list string;
  schema_migrations : option (list (Z * string))
}.

(** [CREATE TABLE/INDEX IF NOT EXISTS name] *)
Definition create_if_not_exists (name : string) (db : Database) : Database :=
  if decide (name = "schema_migrations") then
    match schema_migrations db with
    | Some _ => db
    | None => mkDatabase (objects db) (Some [])
    end
  else if decide (name ∈ objects db) then db
  else mkDatabase (objects db ++ [name]) (schema_migrations db).

(** Executing the SQL of an [Up]. *)
Definition exec_script (names : list string) (db : Database) : Database :=
  fold_left (λ acc name, create_if_not_exists name acc) names db.

(** [INSERT INTO schema_migrations (version, description) VALUES (?, ?)];
    [version] is the primary key. [None] is an error of the engine (table
    missing, or version already there). *)
Definition sql_insert_version (m : Migration) (db : Database)
  : option Database :=
  match schema_migrations db with
  | None => None
  | Some rows =>
      if decide (Version m ∈ rows.*1) then None
      else Some (mkDatabase (objects db)
                            (Some (rows ++ [(Version m, Description m)])))
  end.

(** [SELECT COALESCE(MAX(version), 0) FROM schema_migrations]; [None] is
    the error of a missing table. *)
Definition max_version (rows : list (Z * string)) : option Z :=
  match rows with
  | [] => None
  | (v, _) :: rest => Some (fold_left Z.max (rest.*1) v)
  end.

Definition sql_current_version (db : Database) : option Z :=
  match schema_migrations db with
  | None => None
  | Some rows => Some (default 0 (max_version rows))
  end.

(** The errors [runMigrations] returns, one for each [fmt.Errorf]. *)
Inductive MigrateError :=
| ErrCreateMigrationsTable
| ErrGetCurrentVersion
| ErrRecordMigration (version : Z)
| ErrBeginTransaction (version : Z)
| ErrApplyMigration (version : Z) (description : string)
| ErrCommitMigration (version : Z).

(** ** Faults

    [runMigrations] makes a sequence of calls to the database: [ExecContext],
    [QueryRowContext], [BeginTx], [tx.ExecContext], [tx.Commit]. The
    argument [calls] of the model is the number of these calls that the
    database carries out before it stops: call number [calls + 1] returns an
    error (or the process dies in it, which leaves the same database
    behind). What a transaction has done is in the database once [Commit]
    has been carried out; a transaction that is rolled back, or never
    committed, leaves the database as it was at [BeginTx]. A call outside a
    transaction is its own atomic unit. *)

(** The loop [for _, m := range migrations] with [currentVersion] read
    before it. *)
Fixpoint apply_migrations (ms : list Migration) (currentVersion : Z)
    (calls : nat) (db : Database) : option MigrateError * Database :=
  match ms with
  | [] => (None, db)
  | m :: rest =>
      if decide (Version m ≤ currentVersion)
      then apply_migrations rest currentVersion calls db
      else if decide (Version m = 3) then
        (* db.ExecContext(INSERT INTO schema_migrations ...) *)
        match calls with
        | O => (Some (ErrRecordMigration (Version m)), db)
        | S calls1 =>
            match sql_insert_version m db with
            | None => (Some (ErrRecordMigration (Version m)), db)
            | Some db1 => apply_migrations rest currentVersion calls1 db1
            end
        end
      else
        (* db.BeginTx *)
        match calls with
        | O => (Some (ErrBeginTransaction (Version m)), db)
        | S calls1 =>
        (* tx.ExecContext(m.Up); on error tx.Rollback() *)
        match calls1 with
        | O => (Some (ErrApplyMigration (Version m) (Description m)), db)
        | S calls2 =>
        let tx1 := exec_script (Up m) db in
        (* tx.ExecContext(INSERT INTO schema_migrations ...);
           on error tx.Rollback() *)
        match calls2 with
        | O => (Some (ErrRecordMigration (Version m)), db)
        | S calls3 =>
        match sql_insert_version m tx1 with
        | None => (Some (ErrRecordMigration (Version m)), db)
        | Some tx2 =>
        (* tx.Commit() *)
        match calls3 with
        | O => (Some (ErrCommitMigration (Version m)), db)
        | S calls4 => apply_migrations rest currentVersion calls4 tx2
        end end end end end
  end.

(** [func runMigrations(ctx context.Context, db *sql.DB) error] *)
Definition runMigrations (calls : nat) (db : Database)
  : option MigrateError * Database :=
  (* CREATE TABLE IF NOT EXISTS schema_migrations (bootstrap) *)
  match calls with
  | O => (Some ErrCreateMigrationsTable, db)
  | S calls1 =>
      let db1 := create_if_not_exists "schema_migrations" db in
      (* SELECT COALESCE(MAX(version), 0) FROM schema_migrations *)
      match calls1 with
      | O => (Some ErrGetCurrentVersion, db1)
      | S calls2 =>
          match sql_current_version db1 with
          | None => (Some ErrGetCurrentVersion, db1)
          | Some currentVersion =>
              apply_migrations migrations currentVersion calls2 db1
          end
      end
  end.

(** [func CurrentVersion(ctx, db) (int, error)] *)
Definition CurrentVersion (db : Database) : option Z := sql_current_version db.

(** [func LatestVersion() int] *)
Definition LatestVersion : Z :=
  match last migrations with
  | None => 0
  | Some m => Version m
  end.

(** ** The upgrade steps of the specification

    The version that is recorded in a database (0 when nothing is), the
    steps that are newer than a version, and what applying one step is:
    carrying out its upgrade and recording its version. *)
Definition recorded_version (db : Database) : Z :=
  default 0 (sql_current_version db).

Definition pending (v : Z) : list Migration :=
  filter (λ m, v < Version m) migrations.

Definition apply_step (m : Migration) (db : Database) : Database :=
  default db (sql_insert_version m (exec_script (Up m) db)).

Definition apply_steps (steps : list Migration) (db : Database) : Database :=
  fold_left (λ acc m, apply_step m acc) steps db.

(** The versions recorded, in the order of their recording. *)
Definition recorded_versions (db : Database) : list Z :=
  (default [] (schema_migrations db)).*1.

(** The calls of a run that nothing interrupts: the bootstrap, the query,
    and for each of the three migrations at most four. *)
Definition all_calls : nat := 14.

(** The calls one step takes (an [INSERT] for version 3, otherwise
    [BeginTx], two [ExecContext] and [Commit]), and the number of leading
    steps that a budget of calls carries through. *)
Definition step_calls (m : Migration) : nat :=
  if decide (Version m = 3) then 1%nat else 4%nat.

Fixpoint steps_done (steps : list Migration) (calls : nat) : nat :=
  match steps with
  | [] => 0
  | m :: rest =>
      if decide (step_calls m ≤ calls)%nat
      then S (steps_done rest (calls - step_calls m))
      else 0
  end.

Definition version_lt (a b : Migration) : Prop := Version a < Version b.

(* ===================================================================== *)
(** * Package session: the rest of the phase functions                    *)
(* ===================================================================== *)

(** [func (p Phase) String() string] *)
Definition PhaseString (p : Phase) : string := p.

(** [func (p Phase) DisplayName() string] *)
Definition DisplayName (p : Phase) : string :=
  if decide (p = PhasePlanning) then "Planning"
  else if decide (p = PhaseAwaitingApproval) then "Awaiting Approval"
  else if decide (p = PhaseImplementing) then "Implementing"
  else if decide (p = PhaseInReview) then "In Review"
  else if decide (p = PhaseRevising) then "Revising"
  else if decide (p = PhaseCompleted) then "Completed"
  else if decide (p = PhaseError) then "Error"
  else p.

(** ** [strings.TrimSpace] and [strings.ToLower] on ASCII

    A Go string is a sequence of bytes, here a [string] of 8-bit characters.
    On a string whose bytes are all below 128 the two library functions are
    the ones below: [ToLower] adds 32 to the bytes ['A'..'Z'], [TrimSpace]
    removes the leading and the trailing bytes that are one of tab, line
    feed, vertical tab, form feed, carriage return and space. On other
    strings the library decodes UTF-8 and follows Unicode, which is not
    modelled: what is proved of [ParsePhase] is proved of inputs that are
    ASCII. *)
Definition is_ascii_byte (c : ascii) : bool := (N_of_ascii c <? 128)%N.

Fixpoint is_ascii (s : string) : bool :=
  match s with
  | EmptyString => true
  | String c rest => is_ascii_byte c && is_ascii rest
  end.

Definition asciiSpace (c : ascii) : bool :=
  let n := N_of_ascii c in
  ((n =? 9) || (n =? 10) || (n =? 11) || (n =? 12) || (n =? 13) ||
   (n =? 32))%N.

Definition byte_ToLower (c : ascii) : ascii :=
  let n := N_of_ascii c in
  if ((65 <=? n) && (n <=? 90))%N then ascii_of_N (n + 32) else c.

Fixpoint strings_ToLower (s : string) : string :=
  match s with
  | EmptyString => EmptyString
  | String c rest => String (byte_ToLower c) (strings_ToLower rest)
  end.

Fixpoint trim_left (s : string) : string :=
  match s with
  | EmptyString => EmptyString
  | String c rest => if asciiSpace c then trim_left rest else s
  end.

Fixpoint trim_right (s : string) : string :=
  match s with
  | EmptyString => EmptyString
  | String c rest =>
      match trim_right rest with
      | EmptyString => if asciiSpace c then EmptyString
                       else String c EmptyString
      | rest' => String c rest'
      end
  end.

Definition strings_TrimSpace (s : string) : string :=
  trim_right (trim_left s).

(** The error of [ParsePhase], [fmt.Errorf("invalid phase: %q", s)]: it
    holds the input as it was given. *)
Record ParseError := mkParseError { parse_input : string }.

(** [func ParsePhase(s string) (Phase, error)] *)
Definition ParsePhase (s : string) : Phase * option ParseError :=
  let p := strings_ToLower (strings_TrimSpace s) in
  if negb (IsValid p) then ("", Some (mkParseError s)) else (p, None).

(** A string of blanks only. *)
Fixpoint all_space (s : string) : bool :=
  match s with
  | EmptyString => true
  | String c rest => asciiSpace c && all_space rest
  end.

(** ** Paths in the transition table *)
Definition phase_step (p q : Phase) : Prop := CanTransitionTo p q = true.

Definition phase_reachable : Phase → Phase → Prop := rtc phase_step.

(** A string without a blank. *)
Fixpoint no_space (s : string) : bool :=
  match s with
  | EmptyString => true
  | String c rest => negb (asciiSpace c) && no_space rest
  end.

(* ===================================================================== *)
(** * The store: what the constraints of the schema keep                  *)
(* ===================================================================== *)

(** The natural key of a row. *)
Definition issue_key (row : Session) : string * string * Z :=
  (RepoOwner row, RepoName row, IssueNumber row).

(** A database as the schema and the store keep it: ids are unique (primary
    key), so are the natural keys ([UNIQUE]), every row passed [Validate],
    every event refers to a stored session (foreign key), and the ids of the
    events increase along the table and do not exceed the counter of
    [AUTOINCREMENT]. *)
Record db_wf (db : DB) : Prop := mk_db_wf {
  wf_ids : NoDup (ID <$> sessions db);
  wf_issues : NoDup (issue_key <$> sessions db);
  wf_valid : Forall (λ row, Validate row = None) (sessions db);
  wf_references :
    Forall (λ ev, Exists (same_id (EvSessionID ev)) (sessions db))
           (session_events db);
  wf_event_ids :
    StronglySorted (λ a b, EvID a < EvID b) (session_events db);
  wf_counter :
    Forall (λ ev, EvID ev ≤ last_event_id db) (session_events db)
}.

(* ===================================================================== *)
(** * Package cli: the session commands that use the store                *)
(* ===================================================================== *)

(** [strings.SplitN(s, "/", 2)]: the string cut at its first slash, or the
    string alone when it has none. *)
Fixpoint cut_slash (s : string) : option (string * string) :=
  match s with
  | EmptyString => None
  | String c rest =>
      if decide (c = "/"%char) then Some (EmptyString, rest)
      else match cut_slash rest with
           | Some (before, after) => Some (String c before, after)
           | None => None
           end
  end.

Definition strings_SplitN2 (s : string) : list string :=
  match cut_slash s with
  | Some (before, after) => [before; after]
  | None => [s]
  end.

(** The filter that [session list] builds from its flags [--repo],
    [--phase], [--active] and [--limit] (the body of [RunE] in
    [newSessionListCmd], up to the call of [List]); [inl] is the error of
    [ParsePhase], with which the command stops. *)
Definition sessionListFilter (repo phase : string) (activeOnly : bool)
    (limit : Z) : ParseError + SessionFilter :=
  let filter0 := mkSessionFilter "" "" None activeOnly limit 0 in
  let filter1 :=
    if decide (repo ≠ "") then
      match strings_SplitN2 repo with
      | [owner; name] =>
          mkSessionFilter owner name (FPhase filter0) (ActiveOnly filter0)
                          (Limit filter0) (Offset filter0)
      | _ =>
          mkSessionFilter repo (FRepoName filter0) (FPhase filter0)
                          (ActiveOnly filter0) (Limit filter0)
                          (Offset filter0)
      end
    else filter0 in
  if decide (phase ≠ "") then
    match ParsePhase phase with
    | (_, Some err) => inl err
    | (p, None) =>
        inr (mkSessionFilter (FRepoOwner filter1) (FRepoName filter1)
                             (Some p) (ActiveOnly filter1) (Limit filter1)
                             (Offset filter1))
    end
  else inr filter1.

Fixpoint no_slash (s : string) : bool :=
  match s with
  | EmptyString => true
  | String c rest => negb (bool_decide (c = "/"%char)) && no_slash rest
  end.

(** The numbers that [session stats] prints: for each phase of [AllPhases]
    the [Count] of the filter of that phase, their sum, and the [Count] of
    the active sessions. *)
Definition phase_count (phase : Phase) (db : DB) : Z :=
  Count (mkSessionFilter "" "" (Some phase) false 0 0) db.

Definition stats_total (db : DB) : Z :=
  fold_left (λ total phase, total + phase_count phase db) AllPhases 0.

Definition stats_active (db : DB) : Z :=
  Count (mkSessionFilter "" "" None true 0 0) db.

(** [s[:n]] for [0 <= n <= len(s)]. *)
Fixpoint string_take (n : nat) (s : string) : string :=
  match n, s with
  | S n', String c rest => String c (string_take n' rest)
  | _, _ => EmptyString
  end.

(** [func truncate(s string, maxLen int) string]; [None] is the panic of a
    slice with a negative bound. *)
Definition truncate (s : string) (maxLen : Z) : option string :=
  if decide (Z.of_nat (String.length s) ≤ maxLen) then Some s
  else if decide (maxLen < 4) then
    if decide (maxLen < 0) then None
    else Some (string_take (Z.to_nat maxLen) s)
  else Some (string_take (Z.to_nat (maxLen - 3)) s +:+ "...").

(* ===================================================================== *)
(** * Package store: the migration an error names                         *)
(* ===================================================================== *)

(** The version in the message of an error of [runMigrations] (the two
    errors of the statements before the loop name none). *)
Definition error_version (e : MigrateError) : option Z :=
  match e with
  | ErrCreateMigrationsTable | ErrGetCurrentVersion => None
  | ErrRecordMigration v | ErrBeginTransaction v | ErrApplyMigration v _
  | ErrCommitMigration v => Some v
  end.
(* ===================================================================== *)
(** * Properties of the phase state machine                               *)
(* ===================================================================== *)

Example NewSession_acme :
  NewSession 100 "acme" "widgets" 42 =
  mkSession "acme-widgets-issue-42" "acme" "widgets" 42 None "planning"
            "claude/issue-42" None None None 100 100.
Proof. vm_compute. reflexivity. Qed.

Example CanTransitionTo_ex : CanTransitionTo "in_review" "completed" = true.
Proof. vm_compute. reflexivity. Qed.

Lemma phase_in_elem_of (target : Phase) (allowed : list Phase) :
  phase_in target allowed = true ↔ target ∈ allowed.
Proof.
  induction allowed as [|a rest IH]; simpl.
  - split; [discriminate | intros H; inversion H].
  - rewrite elem_of_cons. destruct (decide (a = target)) as [->|Hne].
    + split; auto.
    + rewrite IH. split; [auto | intros [->|?]; [done | auto]].
Qed.

(** What the map holds at a key, for every key (the seven rows and the
    missing-key case). *)
Lemma validTransitions_lookup (p : Phase) (allowed : list Phase) :
  validTransitions !! p = Some allowed ↔
  (p, allowed) ∈
    [ (PhasePlanning, [PhaseAwaitingApproval; PhaseError]);
      (PhaseAwaitingApproval, [PhasePlanning; PhaseImplementing; PhaseError]);
      (PhaseImplementing, [PhaseInReview; PhaseError]);
      (PhaseInReview, [PhaseRevising; PhaseCompleted; PhaseError]);
      (PhaseRevising, [PhaseInReview; PhaseError]);
      (PhaseCompleted, []);
      (PhaseError, [PhasePlanning]) ].
Proof.
  unfold validTransitions. split.
  - intros H.
    repeat (apply lookup_insert_Some in H as [[<- <-]|[? H]];
            [ set_solver | ]).
    by rewrite lookup_empty in H.
  - intros H. rewrite !elem_of_cons, elem_of_nil in H.
    destruct_or!; try done; simplify_eq; vm_compute; reflexivity.
Qed.

Lemma CanTransitionTo_table (from to : Phase) :
  CanTransitionTo from to = true ↔ (from, to) ∈ transition_table.
Proof.
  unfold CanTransitionTo. split.
  - destruct (validTransitions !! from) as [allowed|] eqn:E; [|discriminate].
    apply validTransitions_lookup in E.
    rewrite phase_in_elem_of. intros Hin.
    rewrite !elem_of_cons, elem_of_nil in E.
    destruct_or!; try done; simplify_eq;
      repeat (apply elem_of_cons in Hin as [->|Hin]);
      try (by apply elem_of_nil in Hin);
      unfold transition_table; set_solver.
  - intros H. unfold transition_table in H.
    rewrite !elem_of_cons, elem_of_nil in H.
    destruct_or!; try done; simplify_eq; vm_compute; reflexivity.
Qed.

(** C1. [CanTransitionTo from to] is true exactly when the edge
    [(from, to)] is in the transition table of section 4.1, and for every
    pair that is not in the table [ValidateTransition from to] returns a
    [TransitionError] whose [From] is [from] and whose [To] is [to]. This is
    proved for all strings, hence for every ordered pair of the seven
    phases. *)
Theorem C1_transition_table_exact :
  (∀ from to : Phase,
      CanTransitionTo from to = true ↔ (from, to) ∈ transition_table) ∧
  (∀ from to : Phase,
      (from, to) ∉ transition_table →
      CanTransitionTo from to = false ∧
      ValidateTransition from to = Some {| From := from; To := to |}) ∧
  (∀ from to : Phase,
      (from, to) ∈ transition_table → ValidateTransition from to = None).
Proof.
  split; [exact CanTransitionTo_table|]. split.
  - intros from to Hnot.
    assert (CanTransitionTo from to = false) as Hf.
    { destruct (CanTransitionTo from to) eqn:E; [|done].
      apply CanTransitionTo_table in E. done. }
    unfold ValidateTransition. rewrite Hf. done.
  - intros from to Hin. apply CanTransitionTo_table in Hin.
    unfold ValidateTransition. by rewrite Hin.
Qed.

(* ===================================================================== *)
(** * Properties of the session entity                                    *)
(* ===================================================================== *)

Example SetPlan_planning :
  SetPlan 7 "do X" (NewSession 5 "acme" "widgets" 42) =
  (None, mkSession "acme-widgets-issue-42" "acme" "widgets" 42 None
                   "awaiting_approval" "claude/issue-42" None (Some "do X")
                   None 5 7).
Proof. vm_compute. reflexivity. Qed.

Example SetError_completed :
  SetError 8 9 "boom"
    (set_SPhase PhaseCompleted (NewSession 5 "acme" "widgets" 42)) =
  (None, mkSession "acme-widgets-issue-42" "acme" "widgets" 42 None
                   "error" "claude/issue-42" None None (Some "boom") 5 9).
Proof. vm_compute. reflexivity. Qed.

(** The scenario of the specification: plan, approve, review, complete; a
    transition out of [completed] is refused; [SetError] still goes
    through. *)
Example end_to_end_scenario :
  let s0 := NewSession 10 "acme" "widgets" 7 in
  let s1 := snd (SetPlan 11 "plan A" s0) in
  let s2 := snd (Approve 12 s1) in
  let s3 := snd (TransitionTo 13 PhaseInReview s2) in
  let s4 := snd (TransitionTo 14 PhaseCompleted s3) in
  (SPhase s1, PlanContent s1) = (PhaseAwaitingApproval, Some "plan A") ∧
  SPhase s2 = PhaseImplementing ∧
  SPhase s3 = PhaseInReview ∧
  SPhase s4 = PhaseCompleted ∧
  TransitionTo 15 PhasePlanning s4 =
    (Some {| From := PhaseCompleted; To := PhasePlanning |}, s4) ∧
  SPhase (snd (SetError 16 17 "late failure" s4)) = PhaseError ∧
  Approve 11 s0 =
    (Some {| From := PhasePlanning; To := PhaseImplementing |}, s0).
Proof. vm_compute. repeat split; reflexivity. Qed.

Lemma ValidateTransition_legal (from to : Phase) :
  CanTransitionTo from to = true → ValidateTransition from to = None.
Proof. unfold ValidateTransition. by intros ->. Qed.

Lemma ValidateTransition_illegal (from to : Phase) :
  CanTransitionTo from to = false →
  ValidateTransition from to = Some {| From := from; To := to |}.
Proof. unfold ValidateTransition. by intros ->. Qed.

(** A legal target is one of the seven phases. *)
Lemma CanTransitionTo_valid_target (from to : Phase) :
  CanTransitionTo from to = true → IsValid to = true.
Proof.
  intros H. apply CanTransitionTo_table in H. unfold transition_table in H.
  rewrite !elem_of_cons, elem_of_nil in H.
  destruct_or!; try done; simplify_eq; reflexivity.
Qed.

Lemma TransitionTo_legal (now : Time) (target : Phase) (s : Session) :
  CanTransitionTo (SPhase s) target = true →
  TransitionTo now target s =
  (None, set_LastActivity now (set_SPhase target s)).
Proof.
  intros H. unfold TransitionTo. by rewrite (ValidateTransition_legal _ _ H).
Qed.

Lemma TransitionTo_illegal (now : Time) (target : Phase) (s : Session) :
  CanTransitionTo (SPhase s) target = false →
  TransitionTo now target s =
  (Some {| From := SPhase s; To := target |}, s).
Proof.
  intros H. unfold TransitionTo. by rewrite (ValidateTransition_illegal _ _ H).
Qed.

(** Both paths of [SetError] end in the same session: the forced one and
    the one through the table differ only in a [LastActivity] that the final
    assignment overwrites. *)
Lemma SetError_eq (now1 now2 : Time) (msg : string) (s : Session) :
  SetError now1 now2 msg s =
  (None, set_LastActivity now2
           (set_ErrorMessage (Some msg) (set_SPhase PhaseError s))).
Proof.
  unfold SetError.
  destruct (CanTransitionTo (SPhase s) PhaseError) eqn:E.
  - by rewrite (TransitionTo_legal _ _ _ E).
  - by rewrite (TransitionTo_illegal _ _ _ E).
Qed.

(** C2. [SetError msg] never returns an error, whatever the phase of the
    session (any string, so also [completed] and [error], from which the
    table has no edge to [error]); afterwards the phase is [error], the error
    text is [msg] and [LastActivity] is the last reading of the clock. *)
Theorem C2_SetError_always_succeeds
  (now1 now2 : Time) (msg : string) (s : Session) :
  fst (SetError now1 now2 msg s) = None ∧
  SPhase (snd (SetError now1 now2 msg s)) = PhaseError ∧
  ErrorMessage (snd (SetError now1 now2 msg s)) = Some msg ∧
  LastActivity (snd (SetError now1 now2 msg s)) = now2.
Proof. rewrite SetError_eq. by simpl. Qed.

(** C10. [SetError msg] changes nothing but the phase, the error text and
    [LastActivity]: id, owner, repository, issue number, branch, PR number,
    container id (not cleared), plan and creation time are as before. *)
Theorem C10_SetError_frame
  (now1 now2 : Time) (msg : string) (s : Session) :
  let s' := snd (SetError now1 now2 msg s) in
  ID s' = ID s ∧ RepoOwner s' = RepoOwner s ∧ RepoName s' = RepoName s ∧
  IssueNumber s' = IssueNumber s ∧ Branch s' = Branch s ∧
  PRNumber s' = PRNumber s ∧ ContainerID s' = ContainerID s ∧
  PlanContent s' = PlanContent s ∧ CreatedAt s' = CreatedAt s.
Proof. rewrite SetError_eq. by simpl. Qed.

(** C4. [TransitionTo] and [SetPlan] are atomic on the session. When the
    transition is legal, [TransitionTo] returns no error, sets the phase to
    the target and [LastActivity] to the clock reading, and [SetPlan] (whose
    target is [awaiting_approval]) sets the plan text as well. When it is
    illegal, the call returns the [TransitionError] of the two endpoints and
    the session is exactly the one before the call; [SetPlan] on a session
    in [implementing] is such a call. *)
Theorem C4_transition_atomic
  (now : Time) (target : Phase) (plan : string) (s : Session) :
  (CanTransitionTo (SPhase s) target = true →
     fst (TransitionTo now target s) = None ∧
     SPhase (snd (TransitionTo now target s)) = target ∧
     LastActivity (snd (TransitionTo now target s)) = now) ∧
  (CanTransitionTo (SPhase s) target = false →
     TransitionTo now target s =
     (Some {| From := SPhase s; To := target |}, s)) ∧
  (CanTransitionTo (SPhase s) PhaseAwaitingApproval = true →
     fst (SetPlan now plan s) = None ∧
     SPhase (snd (SetPlan now plan s)) = PhaseAwaitingApproval ∧
     LastActivity (snd (SetPlan now plan s)) = now ∧
     PlanContent (snd (SetPlan now plan s)) = Some plan) ∧
  (CanTransitionTo (SPhase s) PhaseAwaitingApproval = false →
     SetPlan now plan s =
     (Some {| From := SPhase s; To := PhaseAwaitingApproval |}, s)) ∧
  (SPhase s = PhaseImplementing →
     SetPlan now plan s =
     (Some {| From := PhaseImplementing; To := PhaseAwaitingApproval |}, s)).
Proof.
  repeat split.
  - by rewrite (TransitionTo_legal _ _ _ H).
  - by rewrite (TransitionTo_legal _ _ _ H).
  - by rewrite (TransitionTo_legal _ _ _ H).
  - apply TransitionTo_illegal.
  - unfold SetPlan. by rewrite (TransitionTo_legal _ _ _ H).
  - unfold SetPlan. by rewrite (TransitionTo_legal _ _ _ H).
  - unfold SetPlan. by rewrite (TransitionTo_legal _ _ _ H).
  - unfold SetPlan. by rewrite (TransitionTo_legal _ _ _ H).
  - intros H. unfold SetPlan. by rewrite (TransitionTo_illegal _ _ _ H).
  - intros H. unfold SetPlan.
    rewrite TransitionTo_illegal; rewrite H; [done | reflexivity].
Qed.

Lemma C4_transition_atomic_witness :
  (fst (TransitionTo 7 PhaseAwaitingApproval
          (NewSession 5 "acme" "widgets" 42)) = None ∧
   SPhase (snd (TransitionTo 7 PhaseAwaitingApproval
          (NewSession 5 "acme" "widgets" 42))) = PhaseAwaitingApproval ∧
   LastActivity (snd (TransitionTo 7 PhaseAwaitingApproval
          (NewSession 5 "acme" "widgets" 42))) = 7) ∧
  SetPlan 9 "do Y"
    (set_PlanContent (Some "do X")
       (set_SPhase PhaseImplementing (NewSession 5 "acme" "widgets" 42))) =
  (Some {| From := PhaseImplementing; To := PhaseAwaitingApproval |},
   set_PlanContent (Some "do X")
     (set_SPhase PhaseImplementing (NewSession 5 "acme" "widgets" 42))).
Proof.
  split.
  - destruct (C4_transition_atomic 7 PhaseAwaitingApproval "do X"
                (NewSession 5 "acme" "widgets" 42)) as (Hlegal & _).
    apply Hlegal. vm_compute. reflexivity.
  - destruct (C4_transition_atomic 9 PhaseAwaitingApproval "do Y"
                (set_PlanContent (Some "do X")
                   (set_SPhase PhaseImplementing
                      (NewSession 5 "acme" "widgets" 42))))
      as (_ & _ & _ & _ & Himpl).
    apply Himpl. reflexivity.
Defined.

(** C6. For every owner, repository and issue number, [NewSession] yields
    the id ["{owner}-{repo}-issue-{issueNumber}"], the branch
    ["claude/issue-{issueNumber}"] (the number in decimal), the phase
    [planning], and a creation time equal to the last activity; for
    ("acme", "widgets", 42) the id is "acme-widgets-issue-42" and the branch
    "claude/issue-42". *)
Theorem C6_NewSession_derived_fields :
  (∀ (now : Time) (owner repo : string) (issueNumber : Z),
     let s := NewSession now owner repo issueNumber in
     ID s = owner +:+ "-" +:+ repo +:+ "-issue-" +:+ pretty issueNumber ∧
     Branch s = "claude/issue-" +:+ pretty issueNumber ∧
     RepoOwner s = owner ∧ RepoName s = repo ∧
     IssueNumber s = issueNumber ∧
     SPhase s = PhasePlanning ∧
     CreatedAt s = LastActivity s) ∧
  (∀ now : Time,
     ID (NewSession now "acme" "widgets" 42) = "acme-widgets-issue-42" ∧
     Branch (NewSession now "acme" "widgets" 42) = "claude/issue-42" ∧
     SPhase (NewSession now "acme" "widgets" 42) = "planning").
Proof.
  split.
  - intros now owner repo issueNumber. simpl. by repeat split.
  - intros now. repeat split; vm_compute; reflexivity.
Qed.

(** [IsValid] recognises exactly the seven phases. *)
Lemma IsValid_AllPhases (p : Phase) : IsValid p = true ↔ p ∈ AllPhases.
Proof.
  unfold IsValid, AllPhases. rewrite !elem_of_cons, elem_of_nil.
  repeat case_decide; split; try done; try tauto; intuition congruence.
Qed.

Lemma CanTransitionTo_target_in_AllPhases (from to : Phase) :
  CanTransitionTo from to = true → to ∈ AllPhases.
Proof.
  intros H. apply CanTransitionTo_table in H. unfold transition_table in H.
  rewrite !elem_of_cons, elem_of_nil in H.
  destruct_or!; try done; simplify_eq; unfold AllPhases; set_solver.
Qed.

Lemma TransitionTo_cases (now : Time) (target : Phase) (s : Session) :
  (TransitionTo now target s = (Some {| From := SPhase s; To := target |}, s))
  ∨ (target ∈ AllPhases ∧
     TransitionTo now target s =
     (None, set_LastActivity now (set_SPhase target s))).
Proof.
  destruct (CanTransitionTo (SPhase s) target) eqn:E.
  - right. split; [by eapply CanTransitionTo_target_in_AllPhases|].
    by apply TransitionTo_legal.
  - left. by apply TransitionTo_illegal.
Qed.

Lemma apply_op_CreatedAt (o : Op) (s : Session) :
  CreatedAt (apply_op o s) = CreatedAt s.
Proof.
  destruct o as [now target|now plan|now|now1 now2 msg|now n|now c|now|now];
    cbn [apply_op]; try reflexivity.
  - destruct (TransitionTo_cases now target s) as [->|[_ ->]]; reflexivity.
  - unfold SetPlan.
    destruct (TransitionTo_cases now PhaseAwaitingApproval s) as [->|[_ ->]];
      reflexivity.
  - unfold Approve.
    destruct (TransitionTo_cases now PhaseImplementing s) as [->|[_ ->]];
      reflexivity.
  - by rewrite SetError_eq.
Qed.








(* ===================================================================== *)
(** * Properties of the session store                                     *)
(* ===================================================================== *)

Example Create_twice :
  let s := NewSession 1 "owner" "repo" 42 in
  Create s (snd (Create s empty_db)) =
  (Some (ErrSessionExists "owner" "repo" 42), mkDB [s] [] 0).
Proof. vm_compute. reflexivity. Qed.

Example Error_exists :
  Error (ErrSessionExists "owner" "repo" 42) =
  "session already exists for owner/repo#42".
Proof. vm_compute. reflexivity. Qed.

Section filter_facts.
Context {A : Type} (P : A → Prop) `{!∀ x, Decision (P x)}.

Lemma filter_none (l : list A) : ¬ Exists P l ↔ filter P l = [].
Proof.
  induction l as [|x l IH]; [by split; [|intros _ Hex; inversion Hex]|].
  rewrite Exists_cons. destruct (decide (P x)) as [HP|HP].
  - rewrite filter_cons_True by done. split; [tauto | discriminate].
  - rewrite filter_cons_False by done. rewrite <- IH. tauto.
Qed.

Lemma filter_all (l : list A) : Forall P l → filter P l = l.
Proof.
  induction 1 as [|x l HP _ IH]; [done|].
  by rewrite filter_cons_True, IH.
Qed.

Lemma filter_length_pos (l : list A) :
  Exists P l ↔ length (filter P l) ≠ 0%nat.
Proof.
  destruct (decide (Exists P l)) as [Hex|Hex].
  - split; [|done]. intros _ Hlen. apply nil_length_inv in Hlen.
    by apply filter_none in Hlen.
  - split; [done|]. apply filter_none in Hex. by rewrite Hex.
Qed.
End filter_facts.

Lemma sql_insert_session_ok (row : Session) (db : DB) :
  ¬ Exists (same_id (ID row)) (sessions db) →
  ¬ Exists (same_issue (RepoOwner row) (RepoName row) (IssueNumber row))
           (sessions db) →
  sql_insert_session row db =
  inr (mkDB (sessions db ++ [row]) (session_events db) (last_event_id db)).
Proof.
  intros Hid Hissue. unfold sql_insert_session.
  rewrite (decide_False (P := Exists (same_id _) _)) by done.
  by rewrite decide_False.
Qed.

Lemma Create_fresh (sess : Session) (db : DB) :
  Validate sess = None →
  ¬ Exists (same_id (ID sess)) (sessions db) →
  ¬ Exists (same_issue (RepoOwner sess) (RepoName sess) (IssueNumber sess))
           (sessions db) →
  Create sess db =
  (None, mkDB (sessions db ++ [sess]) (session_events db) (last_event_id db)).
Proof.
  intros Hv Hid Hissue. unfold Create.
  by rewrite Hv, sql_insert_session_ok.
Qed.

Lemma Create_conflict (sess : Session) (db : DB) :
  Validate sess = None →
  Exists (same_id (ID sess)) (sessions db) ∨
  Exists (same_issue (RepoOwner sess) (RepoName sess) (IssueNumber sess))
         (sessions db) →
  Create sess db =
  (Some (ErrSessionExists (RepoOwner sess) (RepoName sess) (IssueNumber sess)),
   db).
Proof.
  intros Hv Hex. unfold Create, sql_insert_session. rewrite Hv.
  destruct (decide (Exists (same_id (ID sess)) (sessions db))); [done|].
  destruct Hex as [?|Hex]; [done|]. by rewrite decide_True.
Qed.

(** Two creates of one triple, where the id of the first session is the id
    of no stored row. Let [s1] be a valid session whose triple has no row in
    the store and whose id is the id of no row. Then [Create s1] succeeds; a
    following [Create] of any valid session [s2] of the same triple fails
    with the "session already exists" error and leaves the store as it was;
    after both calls the rows of the triple are exactly [[s1]]. *)
Lemma Create_same_triple_twice (db : DB) (s1 s2 : Session) :
  Validate s1 = None →
  Validate s2 = None →
  ¬ Exists (same_id (ID s1)) (sessions db) →
  ¬ Exists (same_issue (RepoOwner s1) (RepoName s1) (IssueNumber s1))
           (sessions db) →
  same_issue (RepoOwner s1) (RepoName s1) (IssueNumber s1) s2 →
  let db1 := snd (Create s1 db) in
  let db2 := snd (Create s2 db1) in
  fst (Create s1 db) = None ∧
  fst (Create s2 db1) =
    Some (ErrSessionExists (RepoOwner s1) (RepoName s1) (IssueNumber s1)) ∧
  db2 = db1 ∧
  filter (same_issue (RepoOwner s1) (RepoName s1) (IssueNumber s1))
         (sessions db2) = [s1].
Proof.
  intros Hv1 Hv2 Hid Hissue Hsame db1 db2. subst db1 db2.
  rewrite (Create_fresh s1 db Hv1 Hid Hissue). cbn [fst snd].
  assert (same_issue (RepoOwner s1) (RepoName s1) (IssueNumber s1) s1) as Hs1
    by done.
  destruct Hsame as (Ho & Hr & Hn).
  rewrite (Create_conflict s2); [|done|].
  - rewrite Ho, Hr, Hn. cbn [fst snd sessions].
    repeat split. rewrite filter_app, filter_cons_True, filter_nil by done.
    by rewrite (proj1 (filter_none _ _) Hissue).
  - right. cbn [sessions]. rewrite Ho, Hr, Hn.
    apply Exists_app. right. by constructor.
Qed.

Lemma Create_same_triple_twice_ex :
  let db := snd (Create (NewSession 1 "owner" "other" 7) empty_db) in
  let s1 := NewSession 2 "owner" "repo" 42 in
  let s2 := SetPRNumber 4 9 (NewSession 3 "owner" "repo" 42) in
  let db1 := snd (Create s1 db) in
  let db2 := snd (Create s2 db1) in
  fst (Create s1 db) = None ∧
  fst (Create s2 db1) = Some (ErrSessionExists "owner" "repo" 42) ∧
  db2 = db1 ∧
  filter (same_issue "owner" "repo" 42) (sessions db2) = [s1].
Proof.
  intros db s1 s2.
  apply (Create_same_triple_twice db s1 s2).
  - vm_compute. reflexivity.
  - vm_compute. reflexivity.
  - apply (bool_decide_unpack _). vm_compute. exact I.
  - apply (bool_decide_unpack _). vm_compute. exact I.
  - apply (bool_decide_unpack _). vm_compute. exact I.
Qed.

(** C3. The code on two triples that share an id. [GenerateSessionID] joins
    owner, repository and number with hyphens, so that the triples
    ("my-org", "my-repo", 123) and ("my", "org-my-repo", 123) both get the
    id "my-org-my-repo-issue-123". On an empty store, [Create] of a new
    session of the first triple succeeds. [Create] of a new session of the
    second triple, which is valid and whose triple has no row, is then
    refused by the primary key [sessions.id]; the store reports it as
    "session already exists for my/org-my-repo#123" and keeps the single row
    of the first triple, so that the first create for the second triple does
    not succeed. *)
Theorem C3_id_collision :
  let s1 := NewSession 1 "my-org" "my-repo" 123 in
  let s2 := NewSession 2 "my" "org-my-repo" 123 in
  let db := snd (Create s1 empty_db) in
  GenerateSessionID "my-org" "my-repo" 123 = "my-org-my-repo-issue-123" ∧
  GenerateSessionID "my" "org-my-repo" 123 = "my-org-my-repo-issue-123" ∧
  fst (Create s1 empty_db) = None ∧
  Validate s2 = None ∧
  filter (same_issue "my" "org-my-repo" 123) (sessions db) = [] ∧
  GetByIssue "my" "org-my-repo" 123 db = None ∧
  sql_insert_session s2 db = inl (SqlUniqueFailed "sessions.id") ∧
  Create s2 db = (Some (ErrSessionExists "my" "org-my-repo" 123), db) ∧
  Error (ErrSessionExists "my" "org-my-repo" 123) =
    "session already exists for my/org-my-repo#123" ∧
  sessions (snd (Create s2 db)) = [s1].
Proof. vm_compute. repeat split; reflexivity. Qed.

(** ** Delete *)

Lemma Exists_same_id_deleted (id id' : string) (rows : list Session) :
  Exists (same_id id') (filter (same_id id) rows) ↔
  id' = id ∧ Exists (same_id id) rows.
Proof.
  rewrite !Exists_exists. unfold same_id. split.
  - intros (row & Hin & Hid). apply list_elem_of_filter in Hin as [Hrow Hin].
    unfold same_id in Hrow. split; [congruence | eauto].
  - intros (-> & row & Hin & Hid). exists row. split; [|done].
    by apply list_elem_of_filter.
Qed.

Lemma Delete_found (id : string) (db : DB) :
  Exists (same_id id) (sessions db) →
  Delete id db =
  (None, mkDB (filter (λ row, ¬ same_id id row) (sessions db))
              (filter (λ ev, EvSessionID ev ≠ id) (session_events db))
              (last_event_id db)).
Proof.
  intros Hex. unfold Delete.
  rewrite decide_False by by apply filter_length_pos.
  do 2 f_equal. apply list_filter_iff. intros ev.
  rewrite Exists_same_id_deleted. tauto.
Qed.

Lemma Delete_missing (id : string) (db : DB) :
  ¬ Exists (same_id id) (sessions db) →
  Delete id db = (Some (ErrSessionNotFound id), db).
Proof.
  intros Hex. unfold Delete.
  rewrite (proj1 (filter_none _ _) Hex). rewrite decide_True by done.
  f_equal. destruct db as [rows evs n]. cbn [sessions session_events
    last_event_id] in *. f_equal.
  - apply filter_all. apply Forall_forall. intros row Hin Hid.
    apply Hex, Exists_exists. eauto.
  - apply filter_all. apply Forall_forall. intros ev _ H. inversion H.
Qed.

Example Delete_cascade_ex :
  let s := NewSession 1 "owner" "repo" 42 in
  let db1 := snd (Create s empty_db) in
  let db2 := snd (RecordEvent 2 (ID s) EventTypePhaseChange None db1) in
  GetEvents (ID s) db2 =
    [mkSessionEvent 1 "owner-repo-issue-42" "phase_change" "" 2] ∧
  Delete (ID s) db2 = (None, mkDB [] [] 1) ∧
  Delete "non-existent" db2 = (Some (ErrSessionNotFound "non-existent"), db2).
Proof. vm_compute. repeat split; reflexivity. Qed.

(** C7. When a session of id [id] is stored, [Delete id] succeeds and
    removes the session row and every event of that session: afterwards
    [Get id] finds nothing and [GetEvents id] is empty (no session row and no
    event row mentions [id]); rows and events of other ids are kept. When no
    row has the id, [Delete id] fails with the not-found error and the store
    is unchanged. *)
Theorem C7_delete_cascade (id : string) (db : DB) :
  (Exists (same_id id) (sessions db) →
   let db' := snd (Delete id db) in
   fst (Delete id db) = None ∧
   Get id db' = None ∧
   GetEvents id db' = [] ∧
   (∀ row, row ∈ sessions db' ↔ row ∈ sessions db ∧ ID row ≠ id) ∧
   (∀ ev, ev ∈ session_events db' ↔
          ev ∈ session_events db ∧ EvSessionID ev ≠ id)) ∧
  (¬ Exists (same_id id) (sessions db) →
   Delete id db = (Some (ErrSessionNotFound id), db)).
Proof.
  split; [|apply Delete_missing].
  intros Hex db'. subst db'. rewrite (Delete_found id db Hex).
  cbn [fst snd]. unfold Get, GetEvents. cbn [sessions session_events].
  split_and!.
  - done.
  - rewrite (proj1 (filter_none _ _)); [done|].
    rewrite Exists_exists. intros (row & Hin & Hid).
    apply list_elem_of_filter in Hin as [Hne _]. done.
  - rewrite (proj1 (filter_none _ _)); [done|].
    rewrite Exists_exists. intros (ev & Hin & Hid).
    apply list_elem_of_filter in Hin as [Hne _]. done.
  - intros row. rewrite list_elem_of_filter. unfold same_id. tauto.
  - intros ev. rewrite list_elem_of_filter. tauto.
Qed.

Lemma C7_delete_cascade_witness :
  let s := NewSession 1 "owner" "repo" 42 in
  let db1 := snd (Create s empty_db) in
  let db2 := snd (RecordEvent 2 (ID s) EventTypePhaseChange None db1) in
  let db' := snd (Delete (ID s) db2) in
  (fst (Delete (ID s) db2) = None ∧
   Get (ID s) db' = None ∧
   GetEvents (ID s) db' = []) ∧
  Delete (ID s) db' = (Some (ErrSessionNotFound (ID s)), db').
Proof.
  intros s db1 db2 db'. split.
  - destruct (C7_delete_cascade (ID s) db2) as [Hfound _].
    destruct Hfound as (H1 & H2 & H3 & _).
    + apply (bool_decide_unpack _). vm_compute. exact I.
    + by repeat split.
  - destruct (C7_delete_cascade (ID s) db') as [_ Hmissing].
    apply Hmissing. apply (bool_decide_unpack _). vm_compute. exact I.
Defined.

(** ** List and Count *)

Global Instance last_activity_desc_total : Total last_activity_desc.
Proof. intros a b. unfold last_activity_desc. lia. Qed.

Global Instance last_activity_desc_trans : Transitive last_activity_desc.
Proof. intros a b c. unfold last_activity_desc. lia. Qed.

(** The [WHERE] clause that the code builds holds of a row exactly when the
    row satisfies the conjunction of the conditions set in the filter. *)
Lemma sql_where_matches (f : SessionFilter) (row : Session) :
  sql_where (filter_conditions f) row = true ↔ matches f row.
Proof.
  unfold sql_where, filter_conditions, matches.
  destruct (decide (FRepoOwner f ≠ "")), (decide (FRepoName f ≠ "")),
    (FPhase f), (ActiveOnly f); simpl;
    rewrite ?andb_true_iff, ?negb_true_iff, ?orb_false_iff,
      ?bool_decide_eq_true, ?bool_decide_eq_false;
    intuition congruence.
Qed.

Lemma filter_where_matches (f : SessionFilter) (rows : list Session) :
  filter (λ row, sql_where (filter_conditions f) row = true) rows =
  filter (matches f) rows.
Proof. apply list_filter_iff. intros row. apply sql_where_matches. Qed.

(** Limit and offset as the code applies them: nothing without a positive
    limit; with one, the offset (if positive) and then the limit. *)
Lemma sql_limit_offset_eq (f : SessionFilter) (rows : list Session) :
  sql_limit_offset f rows =
  if decide (0 < Limit f)
  then take (Z.to_nat (Limit f)) (drop (Z.to_nat (Offset f)) rows)
  else rows.
Proof.
  unfold sql_limit_offset. destruct (decide (0 < Limit f)); [|done].
  destruct (decide (0 < Offset f)); [done|].
  by replace (Z.to_nat (Offset f)) with 0%nat by lia.
Qed.

Lemma List_unlimited (f : SessionFilter) (db : DB) :
  Limit f ≤ 0 →
  List f db = merge_sort last_activity_desc (filter (matches f) (sessions db)).
Proof.
  intros Hl. unfold List. rewrite sql_limit_offset_eq, filter_where_matches.
  by rewrite decide_False by lia.
Qed.

Example List_ex :
  let s1 := Touch 10 (NewSession 1 "owner1" "repo1" 1) in
  let s2 := snd (SetError 20 21 "boom" (NewSession 2 "owner1" "repo1" 2)) in
  let s3 := Touch 30 (NewSession 3 "owner2" "repo2" 3) in
  let db := snd (Create s3 (snd (Create s2 (snd (Create s1 empty_db))))) in
  List (mkSessionFilter "" "" None false 0 0) db = [s3; s2; s1] ∧
  List (mkSessionFilter "" "" None true 0 0) db = [s3; s1] ∧
  List (mkSessionFilter "owner1" "repo1" None false 0 0) db = [s2; s1] ∧
  List (mkSessionFilter "" "" None false 2 1) db = [s2; s1] ∧
  List (mkSessionFilter "" "" None false 0 1) db = [s3; s2; s1] ∧
  Count (mkSessionFilter "" "" None true 0 0) db = 2.
Proof. vm_compute. repeat split; reflexivity. Qed.

(** C5, as the code has it. [List] returns the stored sessions that satisfy
    the conjunction of the conditions set in the filter (owner, name, phase,
    and with [ActiveOnly] a phase other than [completed] and [error]),
    ordered by [LastActivity] descending; when the limit is positive the
    first [Offset] of them are skipped and at most [Limit] are kept, and when
    the limit is not positive all of them are returned, whatever the offset.
    With only [ActiveOnly] set the result holds exactly the stored sessions
    whose phase is neither [completed] nor [error]. [Count] returns the
    number of stored sessions satisfying the same conditions. *)
Theorem C5_list_count (f : SessionFilter) (db : DB) :
  let matching := filter (matches f) (sessions db) in
  (∃ ordered : list Session,
     ordered ≡ₚ matching ∧
     StronglySorted last_activity_desc ordered ∧
     List f db =
       if decide (0 < Limit f)
       then take (Z.to_nat (Limit f)) (drop (Z.to_nat (Offset f)) ordered)
       else ordered) ∧
  Count f db = Z.of_nat (length matching) ∧
  (Limit f ≤ 0 →
   ∀ row, row ∈ List f db ↔ row ∈ sessions db ∧ matches f row) ∧
  (Limit f ≤ 0 → ActiveOnly f = true →
   FRepoOwner f = "" → FRepoName f = "" → FPhase f = None →
   ∀ row, row ∈ List f db ↔
          row ∈ sessions db ∧
          SPhase row ≠ PhaseCompleted ∧ SPhase row ≠ PhaseError).
Proof.
  intros matching. subst matching.
  assert (∀ row, Limit f ≤ 0 →
            row ∈ List f db ↔ row ∈ sessions db ∧ matches f row) as Hmem.
  { intros row Hl. rewrite (List_unlimited f db Hl).
    rewrite merge_sort_Permutation, list_elem_of_filter. tauto. }
  split_and!.
  - exists (merge_sort last_activity_desc (filter (matches f) (sessions db))).
    split_and!.
    + apply merge_sort_Permutation.
    + apply StronglySorted_merge_sort; apply _.
    + unfold List. by rewrite sql_limit_offset_eq, filter_where_matches.
  - unfold Count. by rewrite filter_where_matches.
  - intros Hl row. by apply Hmem.
  - intros Hl Ha Ho Hn Hp row. rewrite (Hmem row Hl).
    unfold matches. rewrite Ha, Ho, Hn, Hp. intuition congruence.
Qed.

Lemma C5_list_count_witness :
  let s1 := Touch 10 (NewSession 1 "owner1" "repo1" 1) in
  let s2 := snd (SetError 20 21 "boom" (NewSession 2 "owner1" "repo1" 2)) in
  let s3 := Touch 30 (NewSession 3 "owner2" "repo2" 3) in
  let db := snd (Create s3 (snd (Create s2 (snd (Create s1 empty_db))))) in
  let f := mkSessionFilter "" "" None true 0 0 in
  (Limit f ≤ 0 ∧ ActiveOnly f = true) ∧
  (∀ row, row ∈ List f db ↔
          row ∈ sessions db ∧
          SPhase row ≠ PhaseCompleted ∧ SPhase row ≠ PhaseError).
Proof.
  intros s1 s2 s3 db f.
  destruct (C5_list_count f db) as (_ & _ & _ & Hactive).
  split; [split; [by vm_compute | reflexivity]|].
  apply Hactive; [by vm_compute | reflexivity..].
Defined.

(** The claim C5 as stated ("then restricted by the filter's limit and
    offset") fails for a filter with an offset and no limit: the code adds
    [OFFSET] only inside the branch of a positive [Limit], so that all
    matching sessions are returned and none is skipped. *)
Lemma C5_counterexample :
  let s1 := Touch 10 (NewSession 1 "owner1" "repo1" 1) in
  let s2 := Touch 20 (NewSession 2 "owner1" "repo1" 2) in
  let db := snd (Create s2 (snd (Create s1 empty_db))) in
  let f := mkSessionFilter "" "" None false 0 1 in
  List f db = [s2; s1] ∧
  ¬ ∃ ordered : list Session,
      ordered ≡ₚ filter (matches f) (sessions db) ∧
      StronglySorted last_activity_desc ordered ∧
      List f db = spec_limit_offset f ordered.
Proof.
  intros s1 s2 db f. split; [by vm_compute|].
  intros (ordered & Hperm & _ & Heq).
  apply Permutation_length in Hperm.
  apply (f_equal length) in Heq.
  unfold spec_limit_offset in Heq. rewrite decide_False in Heq by done.
  rewrite length_drop, Hperm in Heq.
  vm_compute in Heq. discriminate.
Qed.

(* ===================================================================== *)
(** * Properties of the migration runner                                  *)
(* ===================================================================== *)

Example runMigrations_fresh :
  runMigrations all_calls (mkDatabase [] None) =
  (None,
   mkDatabase
     ["sessions"; "idx_sessions_repo"; "idx_sessions_phase";
      "idx_sessions_last_activity"; "session_events";
      "idx_session_events_session"; "idx_session_events_type"]
     (Some [(1, "Create sessions table"); (2, "Create session_events table");
            (3, "Create schema_migrations table")])).
Proof. vm_compute. reflexivity. Qed.

(** A fault in the transaction of migration 2 (its [Commit] is call 10). *)
Example runMigrations_interrupted :
  runMigrations 9 (mkDatabase [] None) =
  (Some (ErrCommitMigration 2),
   mkDatabase
     ["sessions"; "idx_sessions_repo"; "idx_sessions_phase";
      "idx_sessions_last_activity"]
     (Some [(1, "Create sessions table")])).
Proof. vm_compute. reflexivity. Qed.

(** ** The engine *)

Lemma create_if_not_exists_table (name : string) (db : Database) rows :
  schema_migrations db = Some rows →
  schema_migrations (create_if_not_exists name db) = Some rows.
Proof.
  intros H. unfold create_if_not_exists. rewrite H.
  repeat case_decide; done.
Qed.

Lemma exec_script_table (names : list string) (db : Database) rows :
  schema_migrations db = Some rows →
  schema_migrations (exec_script names db) = Some rows.
Proof.
  unfold exec_script. revert db.
  induction names as [|name names IH]; intros db H; simpl; [done|].
  apply IH. by apply create_if_not_exists_table.
Qed.

Lemma bootstrap_idem (db : Database) rows :
  schema_migrations db = Some rows →
  create_if_not_exists "schema_migrations" db = db.
Proof. intros H. unfold create_if_not_exists. by rewrite decide_True, H. Qed.

Lemma bootstrap_table (db : Database) :
  schema_migrations (create_if_not_exists "schema_migrations" db) =
  Some (default [] (schema_migrations db)).
Proof.
  unfold create_if_not_exists. rewrite decide_True by done.
  by destruct (schema_migrations db) eqn:E.
Qed.

Lemma sql_insert_version_fresh (m : Migration) (db : Database) rows :
  schema_migrations db = Some rows →
  Forall (λ r, r.1 < Version m) rows →
  sql_insert_version m db =
  Some (mkDatabase (objects db)
                   (Some (rows ++ [(Version m, Description m)]))).
Proof.
  intros H Hlt. unfold sql_insert_version. rewrite H.
  rewrite decide_False; [done|].
  intros Hin. apply list_elem_of_fmap in Hin as (r & Hr & Hin).
  rewrite Forall_forall in Hlt. specialize (Hlt r Hin). lia.
Qed.

(** ** The recorded version *)

Lemma fold_max_ge (l : list Z) (a : Z) :
  a ≤ fold_left Z.max l a ∧ Forall (λ x, x ≤ fold_left Z.max l a) l.
Proof.
  revert a. induction l as [|x l IH]; intros a; simpl; [by split|].
  destruct (IH (Z.max a x)) as [H1 H2]. split; [lia|].
  constructor; [lia | done].
Qed.

Lemma fold_max_snoc (l : list Z) (a v : Z) :
  fold_left Z.max (l ++ [v]) a = Z.max (fold_left Z.max l a) v.
Proof. by rewrite fold_left_app. Qed.

Lemma fold_max_lt (l : list Z) (a v : Z) :
  a < v → Forall (λ x, x < v) l → fold_left Z.max l a < v.
Proof.
  revert a. induction l as [|x l IH]; intros a Ha Hl; simpl; [done|].
  apply Forall_cons in Hl as [Hx Hl]. apply IH; [lia | done].
Qed.

Lemma current_version_bound (rows : list (Z * string)) :
  Forall (λ r, r.1 ≤ default 0 (max_version rows)) rows.
Proof.
  destruct rows as [|[v d] rest]; [constructor|]. simpl.
  destruct (fold_max_ge (rest.*1) v) as [H1 H2].
  constructor; [done|]. apply Forall_forall. intros r Hr.
  rewrite Forall_forall in H2. apply H2. by apply list_elem_of_fmap_2.
Qed.

Lemma current_version_snoc (rows : list (Z * string)) (v : Z) (d : string) :
  Forall (λ r, r.1 < v) rows →
  default 0 (max_version (rows ++ [(v, d)])) = v.
Proof.
  intros Hlt. destruct rows as [|[v0 d0] rest]; [done|]. simpl.
  apply Forall_cons in Hlt as [H0 Hrest]. simpl in H0.
  rewrite fmap_app. simpl. rewrite fold_max_snoc.
  assert (fold_left Z.max (rest.*1) v0 < v); [|lia].
  apply fold_max_lt; [done|]. apply Forall_forall. intros x Hx.
  apply list_elem_of_fmap in Hx as (r & -> & Hr).
  rewrite Forall_forall in Hrest. by apply Hrest.
Qed.

(** ** One step *)

Lemma apply_step_fresh (m : Migration) (db : Database) rows :
  schema_migrations db = Some rows →
  Forall (λ r, r.1 < Version m) rows →
  apply_step m db =
  mkDatabase (objects (exec_script (Up m) db))
             (Some (rows ++ [(Version m, Description m)])).
Proof.
  intros H Hlt. unfold apply_step.
  by rewrite (sql_insert_version_fresh m _ rows)
    by (by apply exec_script_table || done).
Qed.

Lemma apply_steps_cons (m : Migration) (steps : list Migration) db :
  apply_steps (m :: steps) db = apply_steps steps (apply_step m db).
Proof. reflexivity. Qed.

Lemma apply_steps_app (l1 l2 : list Migration) db :
  apply_steps (l1 ++ l2) db = apply_steps l2 (apply_steps l1 db).
Proof. unfold apply_steps. by rewrite fold_left_app. Qed.

Lemma steps_done_le (steps : list Migration) (calls : nat) :
  (steps_done steps calls ≤ length steps)%nat.
Proof.
  revert calls. induction steps as [|m rest IH]; intros calls; simpl; [lia|].
  case_decide; [|lia]. specialize (IH (calls - step_calls m)%nat). lia.
Qed.

Lemma steps_done_all (steps : list Migration) (calls : nat) :
  (4 * length steps ≤ calls)%nat → steps_done steps calls = length steps.
Proof.
  revert calls. induction steps as [|m rest IH]; intros calls H; [done|].
  cbn [steps_done length] in *.
  assert (step_calls m ≤ 4)%nat by (unfold step_calls; case_decide; lia).
  rewrite decide_True by lia. rewrite IH; [done | lia].
Qed.

(** ** The loop

    The database the loop leaves is the one in which the leading pending
    steps that the calls carried through are applied, each of them whole;
    the loop returns no error exactly when all of them are. *)
Lemma apply_migrations_steps (ms : list Migration) (cur : Z) :
  StronglySorted version_lt ms →
  (∀ m, m ∈ ms → Version m = 3 → Up m = ["schema_migrations"]) →
  ∀ (calls : nat) (db : Database) rows,
    schema_migrations db = Some rows →
    (∀ m, m ∈ ms → cur < Version m → Forall (λ r, r.1 < Version m) rows) →
    let p := filter (λ m, cur < Version m) ms in
    snd (apply_migrations ms cur calls db) =
      apply_steps (take (steps_done p calls) p) db ∧
    (fst (apply_migrations ms cur calls db) = None ↔
       steps_done p calls = length p).
Proof.
  induction 1 as [|m rest Hsorted IH Hm]; intros Hboot calls db rows Htab Hfresh.
  { simpl. by split. }
  assert (∀ m', m' ∈ rest → Version m' = 3 → Up m' = ["schema_migrations"])
    as Hboot' by (intros m' Hin; apply Hboot; by right).
  cbn [apply_migrations]. destruct (decide (Version m ≤ cur)) as [Hle|Hgt].
  { rewrite filter_cons_False by lia.
    apply (IH Hboot' calls db rows Htab).
    intros m' Hin. apply Hfresh. by right. }
  rewrite filter_cons_True by lia.
  assert (Forall (λ r, r.1 < Version m) rows) as Hrows
    by (apply Hfresh; [by left | lia]).
  assert (∀ m', m' ∈ rest → cur < Version m' →
            Forall (λ r, r.1 < Version m')
                   (rows ++ [(Version m, Description m)])) as Hfresh'.
  { intros m' Hin Hlt. apply Forall_app. split.
    - apply Hfresh; [by right | done].
    - constructor; [|constructor]. simpl.
      rewrite Forall_forall in Hm. by apply Hm. }
  pose proof (apply_step_fresh m db rows Htab Hrows) as Hstep.
  cbn [steps_done]. unfold step_calls.
  destruct (decide (Version m = 3)) as [H3|H3].
  - destruct calls as [|calls1].
    { rewrite decide_False by lia. simpl. split; [done|]. by split. }
    rewrite decide_True by lia.
    assert (sql_insert_version m db = Some (apply_step m db)) as ->.
    { rewrite Hstep, (Hboot m) by (done || by left).
      unfold exec_script. simpl. rewrite (bootstrap_idem db rows Htab).
      by apply sql_insert_version_fresh. }
    replace (S calls1 - 1)%nat with calls1 by lia.
    cbn [take length]. rewrite apply_steps_cons.
    destruct (IH Hboot' calls1 (apply_step m db)
                (rows ++ [(Version m, Description m)])) as [IH1 IH2];
      [by rewrite Hstep | done |].
    split; [done|]. rewrite IH2. lia.
  - assert (sql_insert_version m (exec_script (Up m) db) =
            Some (apply_step m db)) as Hins.
    { rewrite Hstep. apply sql_insert_version_fresh; [|done].
      by apply exec_script_table. }
    destruct calls as [|[|[|[|calls4]]]]; rewrite ?Hins.
    1-4: rewrite decide_False by lia.
    1-4: cbn [take apply_steps fold_left fst snd length].
    1-4: split; [done | by split].
    rewrite decide_True by lia.
    replace (S (S (S (S calls4))) - 4)%nat with calls4 by lia.
    cbn [take length]. rewrite apply_steps_cons.
    destruct (IH Hboot' calls4 (apply_step m db)
                (rows ++ [(Version m, Description m)])) as [IH1 IH2];
      [by rewrite Hstep | done |].
    split; [done|]. rewrite IH2. lia.
Qed.

(** ** The list of migrations *)

Lemma migrations_sorted : StronglySorted version_lt migrations.
Proof.
  unfold migrations, version_lt.
  repeat (constructor; [|repeat constructor; simpl; lia]). constructor.
Qed.

Lemma migrations_bootstrap (m : Migration) :
  m ∈ migrations → Version m = 3 → Up m = ["schema_migrations"].
Proof.
  unfold migrations. rewrite !elem_of_cons, elem_of_nil.
  intros [->|[->|[->|[]]]]; simpl; intros; (done || lia).
Qed.

Lemma StronglySorted_filter {A} (R : relation A) (P : A → Prop)
    `{!∀ x, Decision (P x)} (l : list A) :
  StronglySorted R l → StronglySorted R (filter P l).
Proof.
  induction 1 as [|x l Hl IH Hx]; [constructor|].
  destruct (decide (P x)).
  - rewrite filter_cons_True by done. constructor; [done|].
    rewrite Forall_forall in *. intros y Hy.
    apply list_elem_of_filter in Hy as [_ Hy]. by apply Hx.
  - by rewrite filter_cons_False.
Qed.

Lemma pending_sorted (v : Z) : StronglySorted version_lt (pending v).
Proof. apply StronglySorted_filter, migrations_sorted. Qed.

Lemma pending_elem_of (v : Z) (m : Migration) :
  m ∈ pending v ↔ m ∈ migrations ∧ v < Version m.
Proof. unfold pending. rewrite list_elem_of_filter. tauto. Qed.

Lemma pending_length (v : Z) : (length (pending v) ≤ 3)%nat.
Proof. unfold pending. apply (length_filter _ migrations). Qed.

(** ** The rows that a sequence of steps records *)

Lemma apply_steps_rows (steps : list Migration) :
  StronglySorted version_lt steps →
  ∀ (db : Database) rows,
    schema_migrations db = Some rows →
    (∀ m, m ∈ steps → Forall (λ r, r.1 < Version m) rows) →
    schema_migrations (apply_steps steps db) =
    Some (rows ++ ((λ m, (Version m, Description m)) <$> steps)).
Proof.
  induction 1 as [|m rest Hsorted IH Hm]; intros db rows Htab Hfresh.
  { simpl. by rewrite app_nil_r. }
  rewrite apply_steps_cons.
  assert (Forall (λ r, r.1 < Version m) rows) as Hrows
    by (apply Hfresh; by left).
  rewrite (IH _ (rows ++ [(Version m, Description m)])).
  - by rewrite fmap_cons, <- app_assoc.
  - by rewrite (apply_step_fresh m db rows).
  - intros m' Hin. apply Forall_app. split; [apply Hfresh; by right|].
    constructor; [|constructor]. simpl.
    rewrite Forall_forall in Hm. by apply Hm.
Qed.

(** After the first [j] pending steps, the recorded version is such that
    the steps newer than it are the pending steps from the [j]-th on. *)
Lemma pending_after_steps (v : Z) (j : nat) (rows : list (Z * string)) :
  v = default 0 (max_version rows) →
  let rows' := rows ++ ((λ m, (Version m, Description m)) <$>
                          take j (pending v)) in
  pending (default 0 (max_version rows')) = drop j (pending v).
Proof.
  intros Hv rows'. subst rows'.
  pose proof (pending_sorted v) as Hsorted.
  rewrite <- (take_drop j (pending v)) in Hsorted.
  destruct (take j (pending v)) as [|x l _] eqn:Htake using rev_ind.
  { rewrite fmap_nil, app_nil_r, <- Hv.
    apply take_nil_inv in Htake as [->|Hnil]; [done|].
    rewrite Hnil. by destruct j. }
  apply StronglySorted_app in Hsorted as (Hcross & Hpre & _).
  apply StronglySorted_app in Hpre as (Hl & _ & _).
  assert (x ∈ pending v) as Hx.
  { rewrite <- (take_drop j (pending v)), Htake. set_solver. }
  apply pending_elem_of in Hx as [_ Hx].
  rewrite fmap_app, app_assoc. simpl. rewrite current_version_snoc.
  2:{ apply Forall_app. split.
      - pose proof (current_version_bound rows) as Hb.
        eapply Forall_impl; [exact Hb|]. simpl. intros r Hr. lia.
      - apply Forall_forall. intros r Hr.
        apply list_elem_of_fmap in Hr as (m & -> & Hm). simpl.
        apply (Hl m x); [done | set_solver]. }
  transitivity (filter (λ m, Version x < Version m) (pending v)).
  { unfold pending. rewrite list_filter_filter.
    apply list_filter_iff. intros m. lia. }
  rewrite <- (take_drop j (pending v)) at 1. rewrite Htake, filter_app.
  rewrite (proj1 (filter_none _ _)), app_nil_l.
  - apply filter_all. apply Forall_forall. intros m Hm.
    apply (Hcross x m); [set_solver | done].
  - rewrite Exists_exists. intros (m & Hm & Hlt).
    apply elem_of_app in Hm as [Hm|Hm].
    + specialize (Hl m x Hm). unfold version_lt in Hl.
      assert (x ∈ [x]) as Hxx by set_solver. specialize (Hl Hxx). lia.
    + apply list_elem_of_singleton in Hm as ->. lia.
Qed.

(** ** The objects that a sequence of steps creates *)

Lemma create_if_not_exists_objects (name x : string) (db : Database) :
  x ∈ objects (create_if_not_exists name db) ↔
  x ∈ objects db ∨ (x = name ∧ name ≠ "schema_migrations").
Proof.
  unfold create_if_not_exists.
  destruct (decide (name = "schema_migrations")) as [->|Hne].
  - destruct (schema_migrations db); simpl; tauto.
  - destruct (decide (name ∈ objects db)) as [Hin|Hnin]; simpl.
    + split; [tauto|]. intros [?|[-> _]]; done.
    + rewrite elem_of_app, list_elem_of_singleton. tauto.
Qed.

Lemma exec_script_objects (names : list string) (x : string) (db : Database) :
  x ∈ objects (exec_script names db) ↔
  x ∈ objects db ∨ (x ∈ names ∧ x ≠ "schema_migrations").
Proof.
  unfold exec_script. revert db.
  induction names as [|name names IH]; intros db; simpl.
  - rewrite elem_of_nil. tauto.
  - rewrite IH, create_if_not_exists_objects, elem_of_cons.
    split; [|intuition congruence].
    intros [[?|[-> ?]]|[? ?]]; auto.
Qed.

Lemma apply_steps_objects (steps : list Migration) :
  StronglySorted version_lt steps →
  ∀ (db : Database) rows (x : string),
    schema_migrations db = Some rows →
    (∀ m, m ∈ steps → Forall (λ r, r.1 < Version m) rows) →
    x ∈ objects (apply_steps steps db) ↔
    x ∈ objects db ∨
    (x ≠ "schema_migrations" ∧ ∃ m, m ∈ steps ∧ x ∈ Up m).
Proof.
  induction 1 as [|m rest Hsorted IH Hm]; intros db rows x Htab Hfresh.
  { simpl. split; [tauto|]. intros [?|[_ (m & Hin & _)]]; [done|].
    by apply elem_of_nil in Hin. }
  rewrite apply_steps_cons.
  assert (Forall (λ r, r.1 < Version m) rows) as Hrows
    by (apply Hfresh; by left).
  rewrite (IH _ (rows ++ [(Version m, Description m)])).
  - rewrite (apply_step_fresh m db rows) by done. simpl.
    rewrite exec_script_objects. split.
    + intros [[?|[? ?]]|[? (m' & ? & ?)]]; [by left|..];
        right; (split; [done|]); [exists m | exists m']; split; try done;
        [by left | by right].
    + intros [?|[? (m' & Hin & ?)]]; [by left; left|].
      apply elem_of_cons in Hin as [->|Hin]; [by left; right|].
      right. split; [done|]. by exists m'.
  - by rewrite (apply_step_fresh m db rows).
  - intros m' Hin. apply Forall_app. split; [apply Hfresh; by right|].
    constructor; [|constructor]. simpl.
    rewrite Forall_forall in Hm. by apply Hm.
Qed.

(** ** The runner *)

Lemma recorded_version_rows (db : Database) :
  recorded_version db =
  default 0 (max_version (default [] (schema_migrations db))).
Proof.
  unfold recorded_version, sql_current_version.
  by destruct (schema_migrations db).
Qed.

Lemma current_version_bootstrap (db : Database) :
  sql_current_version (create_if_not_exists "schema_migrations" db) =
  Some (recorded_version db).
Proof.
  unfold sql_current_version. rewrite bootstrap_table.
  by rewrite recorded_version_rows.
Qed.

Lemma rows_below_pending (db : Database) (m : Migration) :
  recorded_version db < Version m →
  Forall (λ r, r.1 < Version m) (default [] (schema_migrations db)).
Proof.
  intros Hlt. rewrite recorded_version_rows in Hlt.
  eapply Forall_impl; [apply current_version_bound|].
  simpl. intros r Hr. lia.
Qed.

Lemma runMigrations_steps (calls : nat) (db : Database) :
  let db0 := create_if_not_exists "schema_migrations" db in
  let p := pending (recorded_version db) in
  snd (runMigrations (S (S calls)) db) =
    apply_steps (take (steps_done p calls) p) db0 ∧
  (fst (runMigrations (S (S calls)) db) = None ↔
     steps_done p calls = length p).
Proof.
  intros db0 p. unfold runMigrations.
  rewrite current_version_bootstrap.
  apply (apply_migrations_steps migrations (recorded_version db)
           migrations_sorted migrations_bootstrap calls db0
           (default [] (schema_migrations db))).
  - apply bootstrap_table.
  - intros m _ Hlt. by apply rows_below_pending.
Qed.

Lemma runMigrations_complete (calls : nat) (db : Database) :
  (all_calls ≤ calls)%nat →
  runMigrations calls db =
  (None, apply_steps (pending (recorded_version db))
                     (create_if_not_exists "schema_migrations" db)).
Proof.
  unfold all_calls. intros Hcalls.
  destruct calls as [|[|calls]]; [lia..|].
  destruct (runMigrations_steps calls db) as [Hsnd Hfst].
  pose proof (pending_length (recorded_version db)) as Hlen.
  rewrite steps_done_all in Hsnd, Hfst by lia.
  rewrite firstn_all in Hsnd.
  destruct (runMigrations (S (S calls)) db) as [e db']. simpl in *.
  f_equal; [by apply Hfst | done].
Qed.

(** ** A database in which the first [j] pending steps are applied *)

Section after_steps.
Variable db : Database.
Variable j : nat.

Local Abbreviation db0 := (create_if_not_exists "schema_migrations" db).
Local Abbreviation v := (recorded_version db).
Local Abbreviation rows0 := (default [] (schema_migrations db)).
Local Abbreviation db' := (apply_steps (take j (pending v)) db0).

Lemma take_pending_sorted : StronglySorted version_lt (take j (pending v)).
Proof.
  pose proof (pending_sorted v) as H.
  rewrite <- (take_drop j (pending v)) in H.
  by apply StronglySorted_app_1_l in H.
Qed.

Lemma take_pending_fresh (m : Migration) :
  m ∈ take j (pending v) → Forall (λ r, r.1 < Version m) rows0.
Proof.
  intros Hin. apply rows_below_pending.
  assert (m ∈ pending v) as Hp.
  { rewrite <- (take_drop j (pending v)). apply elem_of_app. by left. }
  by apply pending_elem_of in Hp as [_ ?].
Qed.

Lemma after_steps_rows :
  schema_migrations db' =
  Some (rows0 ++ ((λ m, (Version m, Description m)) <$>
                    take j (pending v))).
Proof.
  apply apply_steps_rows.
  - apply take_pending_sorted.
  - apply bootstrap_table.
  - apply take_pending_fresh.
Qed.

Lemma after_steps_recorded_versions :
  recorded_versions db' =
  recorded_versions db ++ (Version <$> take j (pending v)).
Proof.
  unfold recorded_versions. rewrite after_steps_rows. simpl.
  rewrite fmap_app. f_equal. rewrite <- list_fmap_compose.
  by apply list_fmap_ext.
Qed.

Lemma after_steps_objects (m : Migration) (name : string) :
  m ∈ take j (pending v) → name ∈ Up m → name ≠ "schema_migrations" →
  name ∈ objects db'.
Proof.
  intros Hm Hname Hne.
  apply (apply_steps_objects _ take_pending_sorted db0 rows0 name).
  - apply bootstrap_table.
  - apply take_pending_fresh.
  - right. split; [done|]. by exists m.
Qed.

Lemma after_steps_pending :
  pending (recorded_version db') = drop j (pending v).
Proof.
  rewrite recorded_version_rows, after_steps_rows. simpl.
  apply pending_after_steps. apply recorded_version_rows.
Qed.

(** Running the runner on such a database ends in the database of the run
    that nothing interrupted. *)
Lemma after_steps_resume (calls : nat) :
  (all_calls ≤ calls)%nat →
  runMigrations calls db' = (None, apply_steps (pending v) db0).
Proof.
  intros Hcalls. rewrite (runMigrations_complete calls db' Hcalls).
  rewrite after_steps_pending.
  rewrite (bootstrap_idem db' _ after_steps_rows).
  rewrite <- apply_steps_app. by rewrite take_drop.
Qed.
End after_steps.

(** C8. Let [v] be the version recorded in the database (0 when none is).
    The pending steps are the migrations of version greater than [v], in
    ascending order of version. A run that nothing interrupts returns no
    error and leaves the database in which exactly these steps are applied,
    in that order, their versions recorded after the ones that were there.
    A run that is stopped after any number of calls leaves either the
    database untouched or one in which a prefix of the pending steps is
    applied: the versions recorded are those of that prefix, and what the
    steps of the prefix create exists (a transaction that did not commit
    leaves nothing, and a version is recorded only with its step). Running
    again on what a stopped run left ends in the same database as the run
    that nothing interrupted: no step is applied twice and none is
    skipped. (Applying a step is carrying out its [Up] and recording its
    version; for migration 3 the loop records the version only, the table
    being the one that the first statement of every run creates if it does
    not exist.) *)
Theorem C8_migrations_resumable (db : Database) :
  let db0 := create_if_not_exists "schema_migrations" db in
  let v := recorded_version db in
  let final := apply_steps (pending v) db0 in
  (∀ m, m ∈ pending v ↔ m ∈ migrations ∧ v < Version m) ∧
  StronglySorted version_lt (pending v) ∧
  (∀ calls, (all_calls ≤ calls)%nat →
            runMigrations calls db = (None, final)) ∧
  recorded_versions final = recorded_versions db ++ (Version <$> pending v) ∧
  (∀ calls, ∃ j,
     let db' := snd (runMigrations calls db) in
     (db' = db ∨ db' = apply_steps (take j (pending v)) db0) ∧
     recorded_versions db' =
       recorded_versions db ++ (Version <$> take j (pending v)) ∧
     (∀ m name, m ∈ take j (pending v) → name ∈ Up m →
                name ≠ "schema_migrations" → name ∈ objects db') ∧
     (fst (runMigrations calls db) = None → db' = final)) ∧
  (∀ calls calls', (all_calls ≤ calls')%nat →
     runMigrations calls' (snd (runMigrations calls db)) = (None, final)).
Proof.
  intros db0 v final. subst db0 v final.
  split_and!.
  - apply pending_elem_of.
  - apply pending_sorted.
  - intros calls. apply runMigrations_complete.
  - pose proof (after_steps_recorded_versions db
                  (length (pending (recorded_version db)))) as H.
    by rewrite firstn_all in H.
  - intros [|[|calls]].
    + exists 0%nat. simpl. split_and!; [by left | by rewrite app_nil_r | | done].
      intros m name Hm. by apply elem_of_nil in Hm.
    + exists 0%nat. cbn [runMigrations snd fst]. rewrite take_0.
      split_and!; [by right | | | done].
      * apply (after_steps_recorded_versions db 0).
      * intros m name Hm. by apply elem_of_nil in Hm.
    + exists (steps_done (pending (recorded_version db)) calls).
      destruct (runMigrations_steps calls db) as [Hsnd Hfst].
      cbn zeta. rewrite Hsnd. split_and!.
      * by right.
      * apply after_steps_recorded_versions.
      * apply after_steps_objects.
      * intros Hnone. apply Hfst in Hnone.
        by rewrite Hnone, firstn_all.
  - intros [|[|calls]] calls' Hcalls'.
    + apply runMigrations_complete. done.
    + cbn [runMigrations snd]. apply (after_steps_resume db 0 calls' Hcalls').
    + destruct (runMigrations_steps calls db) as [Hsnd _]. rewrite Hsnd.
      by apply after_steps_resume.
Qed.

(* ===================================================================== *)
(** * Further properties of the phases                                    *)
(* ===================================================================== *)

Example ParsePhase_ex :
  ParsePhase "  In_Review " = (PhaseInReview, None) ∧
  ParsePhase "PLANNING" = (PhasePlanning, None) ∧
  ParsePhase "invalid" = ("", Some (mkParseError "invalid")) ∧
  ParsePhase "" = ("", Some (mkParseError "")) ∧
  ParsePhase "In Review" = ("", Some (mkParseError "In Review")).
Proof. vm_compute. repeat split; reflexivity. Qed.

(** ** The table *)

Lemma table_endpoints (from to : Phase) :
  (from, to) ∈ transition_table →
  from ∈ AllPhases ∧ to ∈ AllPhases ∧ from ≠ to.
Proof.
  unfold transition_table, AllPhases. intros H.
  rewrite !elem_of_cons, elem_of_nil in H.
  destruct_or!; try done; simplify_eq;
    (split_and!; [rewrite !elem_of_cons; auto 10..|done]).
Qed.

(** X1. [ValidTransitions p] lists exactly the targets that
    [CanTransitionTo p] accepts, and it is empty exactly for [completed] and
    for a string that is no phase. *)
Theorem X1_ValidTransitions_agree (p target : Phase) :
  (target ∈ ValidTransitions p ↔ CanTransitionTo p target = true) ∧
  (ValidTransitions p = [] ↔ p = PhaseCompleted ∨ IsValid p = false).
Proof.
  unfold ValidTransitions, CanTransitionTo. split.
  - destruct (validTransitions !! p) as [allowed|]; simpl.
    + by rewrite phase_in_elem_of.
    + rewrite elem_of_nil. split; [tauto | discriminate].
  - destruct (validTransitions !! p) as [allowed|] eqn:E; simpl.
    + apply validTransitions_lookup in E.
      rewrite !elem_of_cons, elem_of_nil in E.
      destruct_or!; try done; simplify_eq;
        (split; [try discriminate; by left | try done]);
        intros [Heq|Hinv]; try discriminate Heq; try discriminate Hinv.
    + split; [intros _|done]. right.
      destruct (IsValid p) eqn:Hv; [|done].
      apply IsValid_AllPhases in Hv. unfold AllPhases in Hv.
      rewrite !elem_of_cons, elem_of_nil in Hv.
      destruct_or!; try done; subst; vm_compute in E; discriminate.
Qed.

(** X2. A legal transition joins two different phases that [IsValid]
    recognises: no phase may pass to itself, and a string that is no phase
    has no transition, in or out. *)
Theorem X2_transitions_between_valid_phases (from to : Phase) :
  CanTransitionTo from to = true →
  IsValid from = true ∧ IsValid to = true ∧ from ≠ to.
Proof.
  intros H. apply CanTransitionTo_table, table_endpoints in H
    as (Hf & Ht & Hne).
  by rewrite !IsValid_AllPhases.
Qed.

Lemma X2_transitions_between_valid_phases_witness :
  CanTransitionTo PhaseRevising PhaseInReview = true ∧
  IsValid PhaseRevising = true ∧ IsValid PhaseInReview = true ∧
  PhaseRevising ≠ PhaseInReview.
Proof.
  split; [reflexivity|].
  apply (X2_transitions_between_valid_phases PhaseRevising PhaseInReview).
  reflexivity.
Defined.

Lemma IsActive_cases (p : Phase) :
  IsActive p = true ↔ p ∈ ActivePhases.
Proof.
  unfold IsActive, ActivePhases. rewrite andb_true_iff, IsValid_AllPhases.
  unfold AllPhases, IsTerminal. rewrite !elem_of_cons, elem_of_nil.
  rewrite negb_true_iff, orb_false_iff, !bool_decide_eq_false.
  split.
  - intros [H [Hc He]]. destruct_or!; try done; auto 10.
  - intros H. destruct_or!; try done; subst; (split; [auto 10|done]).
Qed.

(** X3. The phases from which the table lets a session pass to [error] are
    exactly the active ones: [CanTransitionTo p error] and [IsActive p] are
    the same boolean, for every string [p]. *)
Theorem X3_error_edge_iff_active (p : Phase) :
  CanTransitionTo p PhaseError = IsActive p.
Proof.
  apply eq_true_iff_eq. rewrite CanTransitionTo_table, IsActive_cases.
  unfold transition_table, ActivePhases.
  rewrite !elem_of_cons, !elem_of_nil. split.
  - intros H. destruct_or!; try done; simplify_eq; auto 10.
  - intros H. destruct_or!; try done; subst; auto 20.
Qed.

(** X4. [AllPhases] and [ActivePhases] list, without repetition, exactly
    the phases that [IsValid] and [IsActive] accept, and the active phases
    are the valid ones that are not terminal. *)
Theorem X4_phase_lists_agree :
  (∀ p, p ∈ AllPhases ↔ IsValid p = true) ∧
  (∀ p, p ∈ ActivePhases ↔ IsActive p = true) ∧
  NoDup AllPhases ∧ NoDup ActivePhases ∧
  ActivePhases = filter (λ p, IsTerminal p = false) AllPhases.
Proof.
  split_and!.
  - intros p. by rewrite IsValid_AllPhases.
  - intros p. by rewrite IsActive_cases.
  - apply (bool_decide_unpack _). vm_compute. exact I.
  - apply (bool_decide_unpack _). vm_compute. exact I.
  - vm_compute. reflexivity.
Qed.

(** ** Paths *)

Ltac phase_step_to q :=
  apply (rtc_l phase_step _ q); [vm_compute; reflexivity|].

Lemma planning_reaches (q : Phase) :
  q ∈ AllPhases → phase_reachable PhasePlanning q.
Proof.
  unfold AllPhases, phase_reachable. rewrite !elem_of_cons, elem_of_nil.
  intros H. destruct_or!; try done; subst.
  - apply rtc_refl.
  - phase_step_to PhaseAwaitingApproval. apply rtc_refl.
  - phase_step_to PhaseAwaitingApproval. phase_step_to PhaseImplementing.
    apply rtc_refl.
  - phase_step_to PhaseAwaitingApproval. phase_step_to PhaseImplementing.
    phase_step_to PhaseInReview. apply rtc_refl.
  - phase_step_to PhaseAwaitingApproval. phase_step_to PhaseImplementing.
    phase_step_to PhaseInReview. phase_step_to PhaseRevising. apply rtc_refl.
  - phase_step_to PhaseAwaitingApproval. phase_step_to PhaseImplementing.
    phase_step_to PhaseInReview. phase_step_to PhaseCompleted. apply rtc_refl.
  - phase_step_to PhaseError. apply rtc_refl.
Qed.

Lemma reaches_planning (p : Phase) :
  p ∈ AllPhases → p ≠ PhaseCompleted → phase_reachable p PhasePlanning.
Proof.
  unfold AllPhases, phase_reachable. rewrite !elem_of_cons, elem_of_nil.
  intros H Hne. destruct_or!; try done; subst;
    try apply rtc_refl;
    try (phase_step_to PhasePlanning; apply rtc_refl);
    phase_step_to PhaseError; phase_step_to PhasePlanning; apply rtc_refl.
Qed.

(** X5. In the graph of the table, every phase other than [completed]
    reaches every phase (through [error] and the retry edge to [planning]
    if need be), so [completed] can be reached from every phase; and from
    [completed] nothing else is reached. *)
Theorem X5_reachability :
  (∀ p q, p ∈ AllPhases → p ≠ PhaseCompleted → q ∈ AllPhases →
          phase_reachable p q) ∧
  (∀ p, p ∈ AllPhases → phase_reachable p PhaseCompleted) ∧
  (∀ q, phase_reachable PhaseCompleted q → q = PhaseCompleted).
Proof.
  assert (∀ p q, p ∈ AllPhases → p ≠ PhaseCompleted → q ∈ AllPhases →
                 phase_reachable p q) as Hall.
  { intros p q Hp Hne Hq. unfold phase_reachable.
    transitivity PhasePlanning;
      [by apply reaches_planning | by apply planning_reaches]. }
  split_and!; [done| |].
  - intros p Hp. destruct (decide (p = PhaseCompleted)) as [->|Hne].
    + apply rtc_refl.
    + apply Hall; [done..|]. unfold AllPhases. rewrite !elem_of_cons. auto 10.
  - intros q H. apply rtc_inv in H as [?|(z & Hstep & _)]; [done|].
    unfold phase_step in Hstep. apply CanTransitionTo_table in Hstep.
    unfold transition_table in Hstep.
    rewrite !elem_of_cons, elem_of_nil in Hstep.
    destruct_or!; try done; simplify_eq.
Qed.

Lemma X5_reachability_witness :
  phase_reachable PhaseRevising PhaseAwaitingApproval ∧
  phase_reachable PhaseError PhaseCompleted.
Proof.
  destruct X5_reachability as (Hall & Hdone & _). split.
  - apply Hall; [|done|]; unfold AllPhases; rewrite !elem_of_cons; auto 10.
  - apply Hdone. unfold AllPhases. rewrite !elem_of_cons. auto 10.
Defined.

(** ** ParsePhase *)

Lemma asciiSpace_ToLower (c : ascii) :
  asciiSpace (byte_ToLower c) = asciiSpace c.
Proof. destruct c as [[] [] [] [] [] [] [] []]; reflexivity. Qed.

Lemma no_space_ToLower (s : string) :
  no_space (strings_ToLower s) = no_space s.
Proof.
  induction s as [|c s IH]; simpl; [done|].
  by rewrite asciiSpace_ToLower, IH.
Qed.

Lemma trim_left_no_space (s : string) : no_space s = true → trim_left s = s.
Proof.
  destruct s as [|c s]; simpl; [done|].
  rewrite andb_true_iff, negb_true_iff. by intros [-> _].
Qed.

Lemma trim_right_no_space (s : string) : no_space s = true → trim_right s = s.
Proof.
  induction s as [|c s IH]; simpl; [done|].
  rewrite andb_true_iff, negb_true_iff. intros [Hc Hs].
  rewrite (IH Hs), Hc. by destruct s.
Qed.

Lemma trim_left_blanks (l s : string) :
  all_space l = true → trim_left (l +:+ s) = trim_left s.
Proof.
  induction l as [|c l IH]; simpl; [done|].
  rewrite andb_true_iff. intros [-> Hl]. by apply IH.
Qed.

Lemma trim_right_all_space (r : string) :
  all_space r = true → trim_right r = "".
Proof.
  induction r as [|c r IH]; simpl; [done|].
  rewrite andb_true_iff. intros [-> Hr]. by rewrite (IH Hr).
Qed.

Lemma trim_right_blanks (s r : string) :
  all_space r = true → trim_right (s +:+ r) = trim_right s.
Proof.
  intros Hr. induction s as [|c s IH]; simpl.
  - by apply trim_right_all_space.
  - by rewrite IH.
Qed.

Lemma trim_left_all_space (r : string) :
  all_space r = true → trim_left r = "".
Proof.
  induction r as [|c r IH]; simpl; [done|].
  rewrite andb_true_iff. intros [-> Hr]. by apply IH.
Qed.

Lemma TrimSpace_blanks (l v r : string) :
  all_space l = true → all_space r = true → no_space v = true →
  strings_TrimSpace (l +:+ v +:+ r) = v.
Proof.
  intros Hl Hr Hv. unfold strings_TrimSpace. rewrite trim_left_blanks by done.
  destruct v as [|c v]; simpl.
  - by rewrite trim_left_all_space.
  - simpl in Hv. apply andb_true_iff in Hv as [Hc Hv'].
    apply negb_true_iff in Hc. rewrite Hc.
    change (String c (v +:+ r)) with (String c v +:+ r).
    rewrite trim_right_blanks by done. apply trim_right_no_space.
    simpl. by rewrite Hc, Hv'.
Qed.

Lemma valid_phase_no_space (p : Phase) : IsValid p = true → no_space p = true.
Proof.
  rewrite IsValid_AllPhases. unfold AllPhases.
  rewrite !elem_of_cons, elem_of_nil.
  intros H. destruct_or!; try done; subst; reflexivity.
Qed.

Lemma is_ascii_ToLower (s : string) :
  is_ascii (strings_ToLower s) = is_ascii s.
Proof.
  induction s as [|c s IH]; simpl; [done|]. rewrite IH. f_equal.
  destruct c as [[] [] [] [] [] [] [] []]; reflexivity.
Qed.

Lemma is_ascii_blanks (s : string) : all_space s = true → is_ascii s = true.
Proof.
  induction s as [|c s IH]; simpl; [done|].
  rewrite !andb_true_iff. intros [Hc Hs]. split; [|by apply IH].
  destruct c as [[] [] [] [] [] [] [] []]; done.
Qed.

Lemma is_ascii_app (s1 s2 : string) :
  is_ascii (s1 +:+ s2) = is_ascii s1 && is_ascii s2.
Proof.
  induction s1 as [|c s1 IH]; simpl; [done|]. by rewrite IH, andb_assoc.
Qed.

Lemma valid_phase_is_ascii (p : Phase) : IsValid p = true → is_ascii p = true.
Proof.
  rewrite IsValid_AllPhases. unfold AllPhases.
  rewrite !elem_of_cons, elem_of_nil.
  intros H. destruct_or!; try done; subst; reflexivity.
Qed.

Lemma ParsePhase_shape (s : string) (p : Phase) (e : option ParseError) :
  ParsePhase s = (p, e) →
  (e = None ∧ IsValid p = true ∧
   p = strings_ToLower (strings_TrimSpace s)) ∨
  (p = "" ∧ e = Some (mkParseError s)).
Proof.
  unfold ParsePhase.
  destruct (IsValid (strings_ToLower (strings_TrimSpace s))) eqn:Hv; simpl;
    intros [= <- <-]; [left | right]; done.
Qed.

Lemma ParsePhase_blanks (l v r : string) (p : Phase) :
  IsValid p = true →
  all_space l = true → all_space r = true →
  strings_ToLower v = p →
  ParsePhase (l +:+ v +:+ r) = (p, None).
Proof.
  intros Hp Hl Hr Hv. unfold ParsePhase.
  assert (no_space v = true) as Hns.
  { rewrite <- no_space_ToLower, Hv. by apply valid_phase_no_space. }
  rewrite (TrimSpace_blanks l v r Hl Hr Hns). cbn zeta.
  rewrite Hv, Hp. reflexivity.
Qed.

(** X6. [ParsePhase] does not mind case nor blanks around: an input made of
    blanks, then any spelling in upper and lower case of one of the seven
    phases, then blanks, is all ASCII and parses to that phase, with no
    error. *)
Theorem X6_ParsePhase_normalises (l v r : string) (p : Phase) :
  IsValid p = true →
  all_space l = true → all_space r = true →
  strings_ToLower v = p →
  is_ascii (l +:+ v +:+ r) = true ∧
  ParsePhase (l +:+ v +:+ r) = (p, None).
Proof.
  intros Hp Hl Hr Hv. split; [|by apply ParsePhase_blanks].
  rewrite !is_ascii_app, (is_ascii_blanks l Hl), (is_ascii_blanks r Hr).
  rewrite <- is_ascii_ToLower, Hv. by rewrite valid_phase_is_ascii.
Qed.

Lemma X6_ParsePhase_normalises_witness :
  is_ascii "  In_REVIEW " = true ∧
  ParsePhase "  In_REVIEW " = (PhaseInReview, None).
Proof.
  apply (X6_ParsePhase_normalises "  " "In_REVIEW" " " PhaseInReview);
    reflexivity.
Defined.

(** X7. Parsing the wire form of a phase gives the phase back, and only a
    valid phase is a fixed point of [ParsePhase]. Whatever the input,
    [ParsePhase] returns either a valid phase and no error, or the empty
    phase and an error that holds the input unchanged. *)
Theorem X7_ParsePhase_round_trip :
  (∀ p : Phase, ParsePhase (PhaseString p) = (p, None) ↔ IsValid p = true) ∧
  (∀ s p e, ParsePhase s = (p, e) →
            (e = None ∧ IsValid p = true) ∨
            (p = "" ∧ e = Some (mkParseError s))).
Proof.
  split.
  - intros p. unfold PhaseString. split.
    + intros H. apply ParsePhase_shape in H as [(_ & Hv & _)|[_ ?]]; done.
    + intros Hp.
      apply IsValid_AllPhases in Hp. unfold AllPhases in Hp.
      rewrite !elem_of_cons, elem_of_nil in Hp.
      destruct_or!; try done; subst; vm_compute; reflexivity.
  - intros s p e H. apply ParsePhase_shape in H. tauto.
Qed.

Lemma X7_ParsePhase_round_trip_witness :
  ParsePhase (PhaseString PhaseRevising) = (PhaseRevising, None).
Proof.
  destruct X7_ParsePhase_round_trip as [H _].
  apply H. reflexivity.
Defined.

Lemma DisplayName_invalid (p : Phase) : IsValid p = false → DisplayName p = p.
Proof.
  unfold IsValid, DisplayName. repeat case_decide; done.
Qed.

(** X8. The seven phases have seven different display names, and a string
    that is no phase is displayed as it is. A display name parses back to
    its phase except for [awaiting_approval] and [in_review], whose names
    ("Awaiting Approval", "In Review") have a blank where the wire form has
    an underscore. *)
Theorem X8_DisplayName :
  (∀ p q, IsValid p = true → IsValid q = true →
          DisplayName p = DisplayName q → p = q) ∧
  (∀ p, IsValid p = false → DisplayName p = p) ∧
  (∀ p, ParsePhase (DisplayName p) = (p, None) ↔
        IsValid p = true ∧
        p ≠ PhaseAwaitingApproval ∧ p ≠ PhaseInReview).
Proof.
  split_and!.
  - intros p q Hp Hq.
    apply IsValid_AllPhases in Hp, Hq. unfold AllPhases in Hp, Hq.
    rewrite !elem_of_cons, elem_of_nil in Hp, Hq.
    destruct_or!; try done; subst; vm_compute; done.
  - apply DisplayName_invalid.
  - intros p. destruct (IsValid p) eqn:Hp.
    + apply IsValid_AllPhases in Hp. unfold AllPhases in Hp.
      rewrite !elem_of_cons, elem_of_nil in Hp.
      destruct_or!; try done; subst; vm_compute;
        (split; [intros H; try discriminate H; by split_and!
                |intros (? & ? & ?); done]).
    + rewrite DisplayName_invalid by done. split; [|by intros [? _]].
      intros H. apply ParsePhase_shape in H as [(_ & Hv & _)|[_ ?]];
        [congruence | done].
Qed.

Lemma X8_DisplayName_witness : DisplayName "paused" = "paused".
Proof.
  destruct X8_DisplayName as (_ & H & _).
  apply H. reflexivity.
Defined.

(* ===================================================================== *)
(** * Further properties of the session entity                            *)
(* ===================================================================== *)

Lemma append_nonempty_r (s1 s2 : string) : s2 ≠ "" → s1 +:+ s2 ≠ "".
Proof. destruct s1; simpl; [done | discriminate]. Qed.

Lemma append_cancel_l (s a b : string) : s +:+ a = s +:+ b → a = b.
Proof.
  induction s as [|c s IH]; simpl; [done|]. intros [= H]. by apply IH.
Qed.

Lemma GenerateSessionID_nonempty owner repo n :
  GenerateSessionID owner repo n ≠ "".
Proof.
  unfold GenerateSessionID. apply append_nonempty_r. discriminate.
Qed.

Lemma Validate_None (s : Session) :
  Validate s = None ↔
  ID s ≠ "" ∧ RepoOwner s ≠ "" ∧ RepoName s ≠ "" ∧ 0 < IssueNumber s ∧
  IsValid (SPhase s) = true ∧ Branch s ≠ "".
Proof.
  unfold Validate.
  repeat case_decide; destruct (IsValid (SPhase s)); simpl;
    split; try done; try (intros (? & ? & ? & ? & ? & ?); done || lia).
  intros _. split_and!; done || lia.
Qed.

(** X9. [Validate] of a session that [NewSession] has made looks at the
    arguments only (the id and the branch are never empty, the phase is
    [planning]): it reports an empty owner first, then an empty repository
    name, then an issue number that is not positive, and accepts the session
    otherwise. *)
Theorem X9_Validate_NewSession
  (now : Time) (owner repo : string) (issueNumber : Z) :
  Validate (NewSession now owner repo issueNumber) =
  if decide (owner = "") then Some "repository owner is required"
  else if decide (repo = "") then Some "repository name is required"
  else if decide (issueNumber ≤ 0) then Some "issue number must be positive"
  else None.
Proof.
  unfold Validate. cbn [ID RepoOwner RepoName IssueNumber SPhase Branch
                        NewSession].
  rewrite (decide_False (P := GenerateSessionID _ _ _ = ""))
    by apply GenerateSessionID_nonempty.
  repeat case_decide; try done.
Qed.

(** What the operations leave alone. *)
Lemma apply_op_identity (o : Op) (s : Session) :
  ID (apply_op o s) = ID s ∧ RepoOwner (apply_op o s) = RepoOwner s ∧
  RepoName (apply_op o s) = RepoName s ∧
  IssueNumber (apply_op o s) = IssueNumber s ∧
  Branch (apply_op o s) = Branch s.
Proof.
  destruct o as [now target|now plan|now|now1 now2 msg|now n|now c|now|now];
    cbn [apply_op]; try done.
  - destruct (TransitionTo_cases now target s) as [->|[_ ->]]; done.
  - unfold SetPlan.
    destruct (TransitionTo_cases now PhaseAwaitingApproval s) as [->|[_ ->]];
      done.
  - unfold Approve.
    destruct (TransitionTo_cases now PhaseImplementing s) as [->|[_ ->]];
      done.
  - by rewrite SetError_eq.
Qed.

Lemma apply_op_phase (o : Op) (s : Session) :
  SPhase (apply_op o s) = SPhase s ∨ IsValid (SPhase (apply_op o s)) = true.
Proof.
  destruct o as [now target|now plan|now|now1 now2 msg|now n|now c|now|now];
    cbn [apply_op]; try (by left).
  - destruct (TransitionTo_cases now target s) as [->|[Hin ->]];
      [by left | right]. by apply IsValid_AllPhases.
  - unfold SetPlan.
    destruct (TransitionTo_cases now PhaseAwaitingApproval s) as [->|[_ ->]];
      [by left | by right].
  - unfold Approve.
    destruct (TransitionTo_cases now PhaseImplementing s) as [->|[_ ->]];
      [by left | by right].
  - rewrite SetError_eq. by right.
Qed.

Lemma apply_op_valid (o : Op) (s : Session) :
  Validate s = None → Validate (apply_op o s) = None.
Proof.
  rewrite !Validate_None. intros (Hid & Ho & Hr & Hn & Hp & Hb).
  destruct (apply_op_identity o s) as (-> & -> & -> & -> & ->).
  split_and!; try done.
  destruct (apply_op_phase o s) as [->|?]; done.
Qed.

Lemma run_ops_valid (ops : list Op) (s : Session) :
  Validate s = None → Validate (run_ops ops s) = None.
Proof.
  unfold run_ops. revert s. induction ops as [|o ops IH]; intros s H; simpl;
    [done|]. by apply IH, apply_op_valid.
Qed.

Lemma run_ops_identity (ops : list Op) (s : Session) :
  ID (run_ops ops s) = ID s ∧ RepoOwner (run_ops ops s) = RepoOwner s ∧
  RepoName (run_ops ops s) = RepoName s ∧
  IssueNumber (run_ops ops s) = IssueNumber s ∧
  Branch (run_ops ops s) = Branch s ∧
  CreatedAt (run_ops ops s) = CreatedAt s.
Proof.
  unfold run_ops. revert s. induction ops as [|o ops IH]; intros s; simpl;
    [done|].
  destruct (IH (apply_op o s)) as (-> & -> & -> & -> & -> & ->).
  destruct (apply_op_identity o s) as (-> & -> & -> & -> & ->).
  by rewrite apply_op_CreatedAt.
Qed.

(** X10. No sequence of operations of the entity makes a valid session
    invalid: if [Validate] accepts a session, it accepts the session after
    any number of calls of [TransitionTo], [SetPlan], [Approve], [SetError],
    [SetPRNumber], [SetContainerID], [ClearContainerID] and [Touch], whether
    the calls returned an error or not. *)
Theorem X10_operations_keep_Validate (ops : list Op) (s : Session) :
  Validate s = None → Validate (run_ops ops s) = None.
Proof.
  intros Hv. induction ops as [|o ops IH] using rev_ind; [done|].
  unfold run_ops in *. rewrite fold_left_app. simpl.
  by apply apply_op_valid.
Qed.

Lemma X10_operations_keep_Validate_witness :
  Validate (NewSession 1 "acme" "widgets" 42) = None ∧
  Validate (run_ops [OpSetPlan 2 "plan"; OpApprove 3; OpSetError 4 5 "boom"]
              (NewSession 1 "acme" "widgets" 42)) = None.
Proof.
  split; [reflexivity|].
  apply X10_operations_keep_Validate. reflexivity.
Defined.

Lemma edge_to_implementing (p : Phase) :
  CanTransitionTo p PhaseImplementing = true ↔ p = PhaseAwaitingApproval.
Proof.
  rewrite CanTransitionTo_table. unfold transition_table.
  rewrite !elem_of_cons, elem_of_nil. split.
  - intros H. destruct_or!; try done; by simplify_eq.
  - intros ->. auto 10.
Qed.

Lemma edge_to_awaiting_approval (p : Phase) :
  CanTransitionTo p PhaseAwaitingApproval = true ↔ p = PhasePlanning.
Proof.
  rewrite CanTransitionTo_table. unfold transition_table.
  rewrite !elem_of_cons, elem_of_nil. split.
  - intros H. destruct_or!; try done; by simplify_eq.
  - intros ->. auto 10.
Qed.

Lemma TransitionTo_ok_iff (now : Time) (target : Phase) (s : Session) :
  fst (TransitionTo now target s) = None ↔
  CanTransitionTo (SPhase s) target = true.
Proof.
  destruct (CanTransitionTo (SPhase s) target) eqn:E.
  - by rewrite (TransitionTo_legal _ _ _ E).
  - by rewrite (TransitionTo_illegal _ _ _ E).
Qed.

(** X11. [Approve] succeeds exactly on a session in [awaiting_approval] and
    [SetPlan] exactly on a session in [planning]; on any other session they
    return the [TransitionError] from its phase and change nothing. So
    [Approve] on a session in [planning], which has no plan yet, fails with
    the error from [planning] to [implementing]. *)
Theorem X11_Approve_SetPlan_preconditions
  (now : Time) (plan : string) (s : Session) :
  (fst (Approve now s) = None ↔ SPhase s = PhaseAwaitingApproval) ∧
  (fst (SetPlan now plan s) = None ↔ SPhase s = PhasePlanning) ∧
  (SPhase s ≠ PhaseAwaitingApproval →
   Approve now s =
   (Some {| From := SPhase s; To := PhaseImplementing |}, s)) ∧
  (SPhase s ≠ PhasePlanning →
   SetPlan now plan s =
   (Some {| From := SPhase s; To := PhaseAwaitingApproval |}, s)).
Proof.
  split_and!.
  - unfold Approve. by rewrite TransitionTo_ok_iff, edge_to_implementing.
  - unfold SetPlan.
    destruct (CanTransitionTo (SPhase s) PhaseAwaitingApproval) eqn:E.
    + rewrite (TransitionTo_legal _ _ _ E). simpl.
      apply edge_to_awaiting_approval in E. done.
    + rewrite (TransitionTo_illegal _ _ _ E). simpl.
      split; [done|]. intros H. apply edge_to_awaiting_approval in H.
      congruence.
  - intros Hne. unfold Approve. apply TransitionTo_illegal.
    destruct (CanTransitionTo (SPhase s) PhaseImplementing) eqn:E; [|done].
    by apply edge_to_implementing in E.
  - intros Hne. unfold SetPlan. rewrite TransitionTo_illegal; [done|].
    destruct (CanTransitionTo (SPhase s) PhaseAwaitingApproval) eqn:E;
      [|done].
    by apply edge_to_awaiting_approval in E.
Qed.

Lemma X11_Approve_SetPlan_preconditions_witness :
  Approve 2 (NewSession 1 "acme" "widgets" 42) =
  (Some {| From := PhasePlanning; To := PhaseImplementing |},
   NewSession 1 "acme" "widgets" 42).
Proof.
  destruct (X11_Approve_SetPlan_preconditions 2 ""
              (NewSession 1 "acme" "widgets" 42)) as (_ & _ & H & _).
  apply H. discriminate.
Defined.

(** X12. What each operation can touch. None changes the id, the owner,
    the repository, the issue number, the branch or the creation time. The
    PR number changes only by [SetPRNumber], the container id only by
    [SetContainerID] and [ClearContainerID], the plan only by [SetPlan], the
    error text only by [SetError]; and the four setters [SetPRNumber],
    [SetContainerID], [ClearContainerID] and [Touch] never change the
    phase. In particular a [TransitionTo] into [error] sets no error text,
    and one out of [error] clears none. *)
Theorem X12_operation_frames (o : Op) (s : Session) :
  let s' := apply_op o s in
  (ID s' = ID s ∧ RepoOwner s' = RepoOwner s ∧ RepoName s' = RepoName s ∧
   IssueNumber s' = IssueNumber s ∧ Branch s' = Branch s ∧
   CreatedAt s' = CreatedAt s) ∧
  PRNumber s' =
    match o with OpSetPRNumber _ n => Some n | _ => PRNumber s end ∧
  ContainerID s' =
    match o with
    | OpSetContainerID _ c => Some c
    | OpClearContainerID _ => None
    | _ => ContainerID s
    end ∧
  match o with
  | OpSetPlan _ plan =>
      PlanContent s' = Some plan ∨ (s' = s ∧ SPhase s ≠ PhasePlanning)
  | _ => PlanContent s' = PlanContent s
  end ∧
  ErrorMessage s' =
    match o with OpSetError _ _ msg => Some msg | _ => ErrorMessage s end ∧
  match o with
  | OpSetPRNumber _ _ | OpSetContainerID _ _ | OpClearContainerID _
  | OpTouch _ => SPhase s' = SPhase s
  | _ => True
  end.
Proof.
  intros s'. subst s'.
  destruct (apply_op_identity o s) as (Hid & Ho & Hr & Hn & Hb).
  split; [by rewrite apply_op_CreatedAt|]. clear Hid Ho Hr Hn Hb.
  destruct o as [now target|now plan|now|now1 now2 msg|now n|now c|now|now];
    cbn [apply_op]; try done.
  - destruct (TransitionTo_cases now target s) as [->|[_ ->]]; done.
  - destruct (decide (SPhase s = PhasePlanning)) as [Hp|Hp].
    + unfold SetPlan. rewrite TransitionTo_legal
        by (by apply edge_to_awaiting_approval).
      simpl. split_and!; try done. by left.
    + unfold SetPlan. rewrite TransitionTo_illegal.
      * simpl. split_and!; try done. by right.
      * destruct (CanTransitionTo (SPhase s) PhaseAwaitingApproval) eqn:E;
          [|done]. by apply edge_to_awaiting_approval in E.
  - unfold Approve.
    destruct (TransitionTo_cases now PhaseImplementing s) as [->|[_ ->]];
      done.
  - by rewrite SetError_eq.
Qed.

(** X13. After [SetError], whatever the session was, the only transition
    that succeeds is the retry to [planning]; it keeps the error text and
    the plan. Any other target is refused with the error from [error] and
    the session stays as [SetError] left it. *)
Theorem X13_retry_after_SetError
  (now1 now2 now : Time) (msg : string) (target : Phase) (s : Session) :
  let s' := snd (SetError now1 now2 msg s) in
  (fst (TransitionTo now PhasePlanning s') = None ∧
   SPhase (snd (TransitionTo now PhasePlanning s')) = PhasePlanning ∧
   ErrorMessage (snd (TransitionTo now PhasePlanning s')) = Some msg ∧
   PlanContent (snd (TransitionTo now PhasePlanning s')) = PlanContent s) ∧
  (target ≠ PhasePlanning →
   TransitionTo now target s' =
   (Some {| From := PhaseError; To := target |}, s')).
Proof.
  intros s'. subst s'. rewrite SetError_eq. cbn [snd]. split.
  - by rewrite TransitionTo_legal by reflexivity.
  - intros Hne. rewrite TransitionTo_illegal; [done|]. cbn [SPhase set_SPhase
      set_ErrorMessage set_LastActivity].
    destruct (CanTransitionTo PhaseError target) eqn:E; [|done].
    apply CanTransitionTo_table in E. unfold transition_table in E.
    rewrite !elem_of_cons, elem_of_nil in E.
    destruct_or!; try done; by simplify_eq.
Qed.

Lemma X13_retry_after_SetError_witness :
  let s' := snd (SetError 2 3 "boom"
                   (set_SPhase PhaseCompleted (NewSession 1 "o" "r" 5))) in
  TransitionTo 4 PhaseCompleted s' =
  (Some {| From := PhaseError; To := PhaseCompleted |}, s').
Proof.
  intros s'.
  destruct (X13_retry_after_SetError 2 3 4 "boom" PhaseCompleted
              (set_SPhase PhaseCompleted (NewSession 1 "o" "r" 5)))
    as [_ H].
  apply H. discriminate.
Defined.

(** X14. For one owner and one repository, different issue numbers give
    different session ids, and different issue numbers always give different
    branch names: [GenerateSessionID owner repo] and [GenerateBranchName]
    are injective in the number. *)
Theorem X14_names_injective_in_issue (owner repo : string) (n m : Z) :
  n ≠ m →
  GenerateSessionID owner repo n ≠ GenerateSessionID owner repo m ∧
  GenerateBranchName n ≠ GenerateBranchName m.
Proof.
  unfold GenerateSessionID, GenerateBranchName, sprint_d.
  intros Hne. split; intros H.
  - do 4 apply append_cancel_l in H. by apply (inj pretty) in H.
  - apply append_cancel_l in H. by apply (inj pretty) in H.
Qed.

Lemma X14_names_injective_in_issue_witness :
  GenerateSessionID "acme" "widgets" 42 ≠ GenerateSessionID "acme" "widgets" 43
  ∧ GenerateBranchName 42 ≠ GenerateBranchName 43.
Proof. apply X14_names_injective_in_issue. discriminate. Defined.

(* ===================================================================== *)
(** * Further properties of the session store                             *)
(* ===================================================================== *)

(** ** Create *)

Lemma Create_cases (sess : Session) (db : DB) :
  (∃ msg, Validate sess = Some msg ∧
          Create sess db = (Some (ErrInvalidSession msg), db)) ∨
  (Validate sess = None ∧
   (Exists (same_id (ID sess)) (sessions db) ∨
    Exists (same_issue (RepoOwner sess) (RepoName sess) (IssueNumber sess))
           (sessions db)) ∧
   Create sess db =
   (Some (ErrSessionExists (RepoOwner sess) (RepoName sess)
                           (IssueNumber sess)), db)) ∨
  (Validate sess = None ∧
   ¬ Exists (same_id (ID sess)) (sessions db) ∧
   ¬ Exists (same_issue (RepoOwner sess) (RepoName sess) (IssueNumber sess))
            (sessions db) ∧
   Create sess db =
   (None, mkDB (sessions db ++ [sess]) (session_events db)
               (last_event_id db))).
Proof.
  destruct (Validate sess) as [msg|] eqn:Hv.
  { left. exists msg. split; [done|]. unfold Create. by rewrite Hv. }
  right.
  destruct (decide (Exists (same_id (ID sess)) (sessions db))) as [Hid|Hid].
  { left. split_and!; [done | by left | apply Create_conflict; auto]. }
  destruct (decide (Exists (same_issue (RepoOwner sess) (RepoName sess)
                             (IssueNumber sess)) (sessions db))) as [Hi|Hi].
  { left. split_and!; [done | by right | apply Create_conflict; auto]. }
  right. split_and!; try done. by apply Create_fresh.
Qed.

Lemma Get_app (id : string) (rows : list Session) (row : Session) :
  head (filter (same_id id) (rows ++ [row])) =
  match head (filter (same_id id) rows) with
  | Some r => Some r
  | None => if decide (same_id id row) then Some row else None
  end.
Proof.
  rewrite filter_app. destruct (filter (same_id id) rows) as [|r l]; simpl.
  - rewrite filter_cons, filter_nil. by case_decide.
  - done.
Qed.

(** X15. What [Create] has stored can be read back: after a [Create] that
    returned no error, [Get] by the id and [GetByIssue] by the triple of the
    session both return the session as it was given, and sessions that were
    stored before are found by [Get] as before. *)
Theorem X15_Create_then_Get (sess : Session) (db : DB) :
  fst (Create sess db) = None →
  let db' := snd (Create sess db) in
  Get (ID sess) db' = Some sess ∧
  GetByIssue (RepoOwner sess) (RepoName sess) (IssueNumber sess) db' =
    Some sess ∧
  (∀ id, id ≠ ID sess → Get id db' = Get id db) ∧
  session_events db' = session_events db.
Proof.
  intros Hok db'. subst db'.
  destruct (Create_cases sess db)
    as [(msg & _ & Hc)|[(_ & _ & Hc)|(_ & Hid & Hissue & Hc)]];
    rewrite Hc in Hok |- *; try discriminate Hok.
  cbn [snd]. unfold Get, GetByIssue. cbn [sessions session_events].
  split_and!; [| | |done].
  - rewrite Get_app, (proj1 (filter_none _ _) Hid). simpl.
    by rewrite decide_True.
  - rewrite filter_app, (proj1 (filter_none _ _) Hissue). simpl.
    by rewrite filter_cons_True.
  - intros id Hne. rewrite Get_app.
    destruct (head (filter (same_id id) (sessions db))); [done|].
    rewrite decide_False; [done|]. unfold same_id. congruence.
Qed.

Lemma X15_Create_then_Get_witness :
  let sess := NewSession 1 "owner" "repo" 42 in
  Get (ID sess) (snd (Create sess empty_db)) = Some sess.
Proof.
  intros sess.
  apply (X15_Create_then_Get sess empty_db). reflexivity.
Defined.

(** X16. A [Create] that returns an error leaves the database as it was.
    The session is validated before the database is looked at: an invalid
    session is reported as invalid, with the message of [Validate], even
    when a session of its triple is stored; and a valid one is refused, as
    already existing, exactly when its id or its triple is stored. *)
Theorem X16_Create_errors (sess : Session) (db : DB) :
  (fst (Create sess db) ≠ None → snd (Create sess db) = db) ∧
  (∀ msg, Validate sess = Some msg →
          Create sess db = (Some (ErrInvalidSession msg), db)) ∧
  (Validate sess = None →
   (fst (Create sess db) =
      Some (ErrSessionExists (RepoOwner sess) (RepoName sess)
                             (IssueNumber sess)) ↔
    Exists (same_id (ID sess)) (sessions db) ∨
    Exists (same_issue (RepoOwner sess) (RepoName sess) (IssueNumber sess))
           (sessions db))).
Proof.
  destruct (Create_cases sess db)
    as [(msg & Hv & Hc)|[(Hv & Hex & Hc)|(Hv & Hid & Hissue & Hc)]];
    rewrite Hc; cbn [fst snd]; split_and!; try done; try congruence.
  - intros _. split; [discriminate | tauto].
Qed.

Lemma X16_Create_errors_witness :
  let db := snd (Create (NewSession 1 "owner" "repo" 42) empty_db) in
  Create (NewSession 2 "" "repo" 42) db =
  (Some (ErrInvalidSession "repository owner is required"), db).
Proof.
  intros db.
  destruct (X16_Create_errors (NewSession 2 "" "repo" 42) db) as (_ & H & _).
  apply H. reflexivity.
Defined.

(** ** The invariant of the store *)

Lemma Exists_same_id_fmap (id : string) (rows : list Session) :
  Exists (same_id id) rows ↔ id ∈ ID <$> rows.
Proof.
  rewrite Exists_exists, list_elem_of_fmap. unfold same_id.
  split; intros (row & ? & ?); exists row; done.
Qed.

Lemma Exists_same_issue_fmap (row : Session) (rows : list Session) :
  Exists (same_issue (RepoOwner row) (RepoName row) (IssueNumber row)) rows ↔
  issue_key row ∈ issue_key <$> rows.
Proof.
  rewrite Exists_exists, list_elem_of_fmap. unfold same_issue, issue_key.
  split.
  - intros (r & Hin & Ho & Hr & Hn). exists r. by rewrite Ho, Hr, Hn.
  - intros (r & [= Ho Hr Hn] & Hin). exists r. by rewrite Ho, Hr, Hn.
Qed.

Lemma update_row_keys (sess row : Session) :
  ID (update_row sess row) = ID row ∧
  issue_key (update_row sess row) = issue_key row ∧
  Branch (update_row sess row) = Branch row ∧
  CreatedAt (update_row sess row) = CreatedAt row.
Proof. unfold update_row, issue_key. by case_decide. Qed.

Lemma update_row_ids (sess : Session) (rows : list Session) :
  ID <$> (update_row sess <$> rows) = ID <$> rows.
Proof.
  rewrite <- list_fmap_compose. apply list_fmap_ext. intros i row _.
  apply update_row_keys.
Qed.

Lemma update_row_issues (sess : Session) (rows : list Session) :
  issue_key <$> (update_row sess <$> rows) = issue_key <$> rows.
Proof.
  rewrite <- list_fmap_compose. apply list_fmap_ext. intros i row _.
  apply update_row_keys.
Qed.

Lemma update_row_valid (sess row : Session) :
  Validate sess = None → Validate row = None →
  Validate (update_row sess row) = None.
Proof.
  rewrite !Validate_None. unfold update_row.
  intros (_ & _ & _ & _ & Hp & _) (? & ? & ? & ? & ? & ?).
  case_decide; simpl; split_and!; done.
Qed.

Lemma db_wf_empty : db_wf empty_db.
Proof. split; simpl; constructor. Qed.

Lemma Create_wf (sess : Session) (db : DB) :
  db_wf db → db_wf (snd (Create sess db)).
Proof.
  intros [Hids Hissues Hvalid Href Hev Hcnt].
  destruct (Create_cases sess db)
    as [(msg & _ & ->)|[(_ & _ & ->)|(Hv & Hid & Hissue & ->)]];
    [done..|].
  split; cbn [snd sessions session_events last_event_id]; try done.
  - rewrite fmap_app. apply NoDup_app. split_and!; [done| |apply NoDup_singleton].
    intros id Hin Hsing. apply list_elem_of_singleton in Hsing as ->.
    by apply Hid, Exists_same_id_fmap.
  - rewrite fmap_app. apply NoDup_app.
    split_and!; [done| |apply NoDup_singleton].
    intros k Hin Hsing. apply list_elem_of_singleton in Hsing as ->.
    by apply Hissue, Exists_same_issue_fmap.
  - apply Forall_app. split; [done|]. by constructor.
  - eapply Forall_impl; [exact Href|]. simpl. intros ev Hex.
    apply Exists_app. by left.
Qed.

Lemma Update_wf (sess : Session) (db : DB) :
  db_wf db → db_wf (snd (Update sess db)).
Proof.
  intros [Hids Hissues Hvalid Href Hev Hcnt]. unfold Update.
  destruct (Validate sess) as [msg|] eqn:Hv; [done|].
  assert (db_wf (mkDB (update_row sess <$> sessions db) (session_events db)
                      (last_event_id db))) as Hwf.
  { split; cbn [sessions session_events last_event_id]; try done.
    - by rewrite update_row_ids.
    - by rewrite update_row_issues.
    - apply Forall_fmap. eapply Forall_impl; [exact Hvalid|]. simpl.
      intros row Hrow. by apply update_row_valid.
    - eapply Forall_impl; [exact Href|]. simpl. intros ev.
      by rewrite !Exists_same_id_fmap, update_row_ids. }
  by case_decide.
Qed.

Lemma Delete_wf (id : string) (db : DB) :
  db_wf db → db_wf (snd (Delete id db)).
Proof.
  intros [Hids Hissues Hvalid Href Hev Hcnt].
  assert (db_wf (mkDB (filter (λ row, ¬ same_id id row) (sessions db))
           (filter (λ ev, ¬ Exists (same_id (EvSessionID ev))
                               (filter (same_id id) (sessions db)))
                   (session_events db))
           (last_event_id db))) as Hwf.
  { split; cbn [sessions session_events last_event_id].
    - eapply sublist_NoDup; [exact Hids|].
      apply fmap_sublist, sublist_filter.
    - eapply sublist_NoDup; [exact Hissues|].
      apply fmap_sublist, sublist_filter.
    - apply Forall_forall. intros row Hin.
      apply list_elem_of_filter in Hin as [_ Hin].
      rewrite Forall_forall in Hvalid. by apply Hvalid.
    - apply Forall_forall. intros ev Hin.
      apply list_elem_of_filter in Hin as [Hkeep Hin].
      rewrite Forall_forall in Href. specialize (Href ev Hin).
      apply Exists_exists in Href as (row & Hrow & Hid).
      apply Exists_exists. exists row. split; [|done].
      apply list_elem_of_filter. split; [|done]. intros Hsame.
      apply Hkeep, Exists_exists. exists row. split; [|done].
      by apply list_elem_of_filter.
    - by apply StronglySorted_filter.
    - apply Forall_forall. intros ev Hin.
      apply list_elem_of_filter in Hin as [_ Hin].
      rewrite Forall_forall in Hcnt. by apply Hcnt. }
  unfold Delete. by case_decide.
Qed.

(** What [RecordEvent] does, by the outcome of [json.Marshal] and of the
    check of the foreign key. *)
Lemma RecordEvent_cases now sessionID eventType payload (db : DB) :
  RecordEvent now sessionID eventType payload db =
  match marshal_payload payload with
  | inl err => (Some (ErrMarshalPayload err), db)
  | inr payloadJSON =>
      if decide (Exists (same_id sessionID) (sessions db))
      then (None,
            mkDB (sessions db)
                 (session_events db ++
                    [mkSessionEvent (last_event_id db + 1) sessionID
                                    eventType payloadJSON now])
                 (last_event_id db + 1))
      else (Some (ErrRecordEvent SqlForeignKeyFailed), db)
  end.
Proof.
  unfold RecordEvent, marshal_payload, sql_insert_event.
  destruct payload as [[A HA v]|]; [destruct (json_Marshal v)|];
    by try case_decide.
Qed.

Lemma RecordEvent_wf now sessionID eventType payload (db : DB) :
  db_wf db → db_wf (snd (RecordEvent now sessionID eventType payload db)).
Proof.
  intros Hwf. rewrite RecordEvent_cases.
  destruct (marshal_payload payload) as [err|payloadJSON]; [done|].
  case_decide as Hex; [|done].
  destruct Hwf as [Hids Hissues Hvalid Href Hev Hcnt].
  split; cbn [snd sessions session_events last_event_id]; try done.
  - apply Forall_app. split; [done|]. by constructor.
  - apply StronglySorted_app_2; [|done|repeat constructor].
    intros a b Ha Hb. apply list_elem_of_singleton in Hb as ->. simpl.
    rewrite Forall_forall in Hcnt. specialize (Hcnt a Ha). lia.
  - apply Forall_app. split.
    + eapply Forall_impl; [exact Hcnt|]. simpl. intros; lia.
    + constructor; [simpl; lia | constructor].
Qed.

(** X17. The store keeps what the schema demands. In the empty database,
    and after any [Create], [Update], [Delete] or [RecordEvent] on a
    database where it held (whether the call returned an error or not): no
    two sessions share an id, no two share an (owner, repository, issue)
    triple, every stored session passes [Validate], every event belongs to a
    stored session, and event ids grow along the table without exceeding
    the counter, so that no id of an event is used twice. *)
Theorem X17_store_invariant (db : DB) :
  db_wf db →
  (∀ sess, db_wf (snd (Create sess db))) ∧
  (∀ sess, db_wf (snd (Update sess db))) ∧
  (∀ id, db_wf (snd (Delete id db))) ∧
  (∀ now sessionID eventType payload,
     db_wf (snd (RecordEvent now sessionID eventType payload db))).
Proof.
  intros Hwf. split_and!; intros.
  - by apply Create_wf.
  - by apply Update_wf.
  - by apply Delete_wf.
  - by apply RecordEvent_wf.
Qed.

Lemma X17_store_invariant_witness :
  db_wf empty_db ∧
  db_wf (snd (Create (NewSession 1 "owner" "repo" 42) empty_db)).
Proof.
  split; [apply db_wf_empty|].
  apply (X17_store_invariant empty_db db_wf_empty).
Defined.

(** ** Update *)

Lemma filter_same_id_update (sess : Session) (id : string)
    (rows : list Session) :
  filter (same_id id) (update_row sess <$> rows) =
  update_row sess <$> filter (same_id id) rows.
Proof.
  induction rows as [|row rows IH]; [done|].
  rewrite fmap_cons, !filter_cons, IH.
  assert (same_id id (update_row sess row) ↔ same_id id row) as Hiff.
  { unfold same_id. by destruct (update_row_keys sess row) as [-> _]. }
  destruct (decide (same_id id row)) as [H|H].
  - by rewrite decide_True by by apply Hiff.
  - by rewrite decide_False by by rewrite Hiff.
Qed.

Lemma update_row_other (sess : Session) (rows : list Session) :
  ¬ Exists (same_id (ID sess)) rows → update_row sess <$> rows = rows.
Proof.
  induction rows as [|row rows IH]; [done|].
  rewrite Exists_cons. intros Hex. rewrite fmap_cons, IH by tauto.
  unfold update_row. rewrite decide_False by tauto. done.
Qed.

Lemma Update_sessions (sess : Session) (db : DB) :
  Validate sess = None →
  snd (Update sess db) =
  mkDB (update_row sess <$> sessions db) (session_events db)
       (last_event_id db).
Proof. intros Hv. unfold Update. rewrite Hv. by case_decide. Qed.

Lemma Update_ok_iff (sess : Session) (db : DB) :
  fst (Update sess db) = None ↔
  Validate sess = None ∧ Exists (same_id (ID sess)) (sessions db).
Proof.
  unfold Update. destruct (Validate sess) as [msg|]; [by split; [|intros []]|].
  rewrite filter_length_pos. case_decide; simpl; split; try done; tauto.
Qed.

Lemma Get_Update (sess : Session) (id : string) (db : DB) :
  Validate sess = None →
  Get id (snd (Update sess db)) = update_row sess <$> Get id db.
Proof.
  intros Hv. rewrite (Update_sessions sess db Hv). unfold Get.
  cbn [sessions]. rewrite filter_same_id_update.
  by destruct (filter (same_id id) (sessions db)).
Qed.

(** X18. The round trip through the store: create a session, change it in
    memory by any sequence of operations of the entity, [Update] it; then
    [Update] returns no error and [Get] by its id returns the session as it
    is in memory, in all of its fields. *)
Theorem X18_Create_mutate_Update_Get
  (sess : Session) (ops : list Op) (db : DB) :
  fst (Create sess db) = None →
  let db1 := snd (Create sess db) in
  let sess' := run_ops ops sess in
  fst (Update sess' db1) = None ∧
  Get (ID sess) (snd (Update sess' db1)) = Some sess'.
Proof.
  intros Hok db1 sess'.
  destruct (Create_cases sess db)
    as [(msg & _ & Hc)|[(_ & _ & Hc)|(Hv & Hid & Hissue & Hc)]];
    rewrite Hc in Hok; try discriminate Hok.
  assert (Get (ID sess) db1 = Some sess) as Hget.
  { subst db1. rewrite Hc. unfold Get. cbn [snd sessions].
    rewrite Get_app, (proj1 (filter_none _ _) Hid). simpl.
    by rewrite decide_True. }
  assert (Validate sess' = None) as Hv' by by apply run_ops_valid.
  destruct (run_ops_identity ops sess) as (Hi & Ho & Hr & Hn & Hb & Hc').
  fold sess' in Hi, Ho, Hr, Hn, Hb, Hc'. split.
  - apply Update_ok_iff. split; [done|]. rewrite Hi.
    subst db1. rewrite Hc. cbn [snd sessions]. apply Exists_app. right.
    by constructor.
  - rewrite (Get_Update sess' (ID sess) db1 Hv'), Hget. simpl. f_equal.
    unfold update_row. rewrite decide_True by done.
    rewrite <- Hi, <- Ho, <- Hr, <- Hn, <- Hb, <- Hc'. by destruct sess'.
Qed.

Lemma X18_Create_mutate_Update_Get_witness :
  let sess := NewSession 1 "owner" "repo" 42 in
  let ops := [OpSetPlan 2 "plan"; OpApprove 3; OpSetContainerID 4 "c1";
              OpTransitionTo 5 PhaseInReview; OpSetPRNumber 6 123] in
  let db1 := snd (Create sess empty_db) in
  fst (Update (run_ops ops sess) db1) = None ∧
  Get (ID sess) (snd (Update (run_ops ops sess) db1)) =
    Some (run_ops ops sess).
Proof.
  intros sess ops db1.
  apply (X18_Create_mutate_Update_Get sess ops empty_db). reflexivity.
Defined.

(** X19. What [Update] does. An invalid session is refused before the
    database is looked at, and a valid one whose id is not stored is
    refused as not found; in both cases nothing changes. Otherwise the call
    succeeds. It writes the PR number, the phase, the container id, the
    plan, the error text and the last activity of the row of that id, and
    nothing else: the row keeps its owner, repository, issue number, branch
    and creation time even when the session passed in has others, the other
    rows and the events stay as they were. *)
Theorem X19_Update_effect (sess : Session) (db : DB) :
  (∀ msg, Validate sess = Some msg →
          Update sess db = (Some (ErrInvalidSession msg), db)) ∧
  (Validate sess = None → ¬ Exists (same_id (ID sess)) (sessions db) →
   Update sess db = (Some (ErrSessionNotFound (ID sess)), db)) ∧
  (Validate sess = None → Exists (same_id (ID sess)) (sessions db) →
   fst (Update sess db) = None) ∧
  (Validate sess = None →
   let db' := snd (Update sess db) in
   (∀ id, Get id db' = update_row sess <$> Get id db) ∧
   (∀ id, id ≠ ID sess → Get id db' = Get id db) ∧
   ID <$> sessions db' = ID <$> sessions db ∧
   issue_key <$> sessions db' = issue_key <$> sessions db ∧
   Branch <$> sessions db' = Branch <$> sessions db ∧
   CreatedAt <$> sessions db' = CreatedAt <$> sessions db ∧
   session_events db' = session_events db).
Proof.
  split_and!.
  - intros msg Hv. unfold Update. by rewrite Hv.
  - intros Hv Hex. unfold Update. rewrite Hv.
    rewrite (proj1 (filter_none _ _) Hex). rewrite decide_True by done.
    rewrite update_row_other by done. by destruct db.
  - intros Hv Hex. by apply Update_ok_iff.
  - intros Hv db'. subst db'. split_and!.
    + intros id. by apply Get_Update.
    + intros id Hne. rewrite Get_Update by done.
      unfold Get. destruct (filter (same_id id) (sessions db)) as [|row l] eqn:E;
        [done|]. simpl. f_equal.
      assert (row ∈ filter (same_id id) (sessions db)) as Hin
        by (rewrite E; by left).
      apply list_elem_of_filter in Hin as [Hrow _]. unfold same_id in Hrow.
      unfold update_row. rewrite decide_False; [done|].
      unfold same_id. congruence.
    + rewrite Update_sessions by done. apply update_row_ids.
    + rewrite Update_sessions by done. apply update_row_issues.
    + rewrite Update_sessions by done. cbn [sessions].
      rewrite <- list_fmap_compose. apply list_fmap_ext. intros i row _.
      apply update_row_keys.
    + rewrite Update_sessions by done. cbn [sessions].
      rewrite <- list_fmap_compose. apply list_fmap_ext. intros i row _.
      apply update_row_keys.
    + by rewrite Update_sessions.
Qed.

Lemma X19_Update_effect_witness :
  let stored := NewSession 1 "owner" "repo" 42 in
  let db := snd (Create stored empty_db) in
  let passed := mkSession (ID stored) "other" "elsewhere" 7 (Some 9)
                          PhaseInReview "b" None None None 50 60 in
  Get (ID stored) (snd (Update passed db)) =
  Some (mkSession (ID stored) "owner" "repo" 42 (Some 9) PhaseInReview
                  (Branch stored) None None None 1 60).
Proof.
  intros stored db passed.
  destruct (X19_Update_effect passed db) as (_ & _ & _ & H).
  destruct H as (Hget & _); [reflexivity|].
  rewrite Hget. reflexivity.
Defined.

(** ** Events *)

Global Instance created_at_asc_total : Total created_at_asc.
Proof. intros a b. unfold created_at_asc. lia. Qed.

Global Instance created_at_asc_trans : Transitive created_at_asc.
Proof. intros a b c. unfold created_at_asc. lia. Qed.

Lemma GetEvents_elem_of (sessionID : string) (db : DB) (ev : SessionEvent) :
  ev ∈ GetEvents sessionID db ↔
  ev ∈ session_events db ∧ EvSessionID ev = sessionID.
Proof.
  unfold GetEvents. rewrite merge_sort_Permutation, list_elem_of_filter.
  tauto.
Qed.

(** X20. [RecordEvent] first renders a payload that is not nil with
    [json.Marshal]; when that fails the call returns the marshal error and
    changes nothing, whether the session is stored or not. Otherwise, with
    the JSON text of the payload (empty for a nil payload): for an id that
    no stored session has the insert is refused by the foreign key and
    changes nothing; for the id of a stored session the call succeeds, the
    sessions are untouched, the events of that session are the former ones
    and the new one, whose id is the counter plus one, whose payload is the
    JSON text and whose time is the clock's, and the events of every other
    session are as before. Where the invariant of the store holds, the new
    id is greater than the id of every event in the table. So the call
    succeeds exactly when the payload can be rendered and the session is
    stored. *)
Theorem X20_RecordEvent_effect
  (now : Time) (sessionID : string) (eventType : EventType)
  (payload : option Payload) (db : DB) :
  let db' := snd (RecordEvent now sessionID eventType payload db) in
  (∀ err, marshal_payload payload = inl err →
     RecordEvent now sessionID eventType payload db =
     (Some (ErrMarshalPayload err), db)) ∧
  (∀ payloadJSON, marshal_payload payload = inr payloadJSON →
     let new := mkSessionEvent (last_event_id db + 1) sessionID eventType
                               payloadJSON now in
     (¬ Exists (same_id sessionID) (sessions db) →
      RecordEvent now sessionID eventType payload db =
      (Some (ErrRecordEvent SqlForeignKeyFailed), db)) ∧
     (Exists (same_id sessionID) (sessions db) →
      fst (RecordEvent now sessionID eventType payload db) = None ∧
      sessions db' = sessions db ∧
      session_events db' = session_events db ++ [new] ∧
      last_event_id db' = last_event_id db + 1 ∧
      GetEvents sessionID db' ≡ₚ new :: GetEvents sessionID db ∧
      (∀ other, other ≠ sessionID →
                GetEvents other db' = GetEvents other db) ∧
      (db_wf db → Forall (λ ev, EvID ev < EvID new) (session_events db)))) ∧
  (fst (RecordEvent now sessionID eventType payload db) = None ↔
   (∃ payloadJSON, marshal_payload payload = inr payloadJSON) ∧
   Exists (same_id sessionID) (sessions db)).
Proof.
  intros db'. subst db'. rewrite RecordEvent_cases. split_and!.
  - by intros err ->.
  - intros payloadJSON -> new. subst new. split.
    + intros Hex. by rewrite decide_False.
    + intros Hex. rewrite decide_True by done.
      cbn [fst snd sessions session_events last_event_id].
      split_and!; try done.
      * unfold GetEvents. cbn [session_events].
        rewrite !merge_sort_Permutation, filter_app, filter_cons_True by done.
        rewrite filter_nil. by rewrite <- Permutation_cons_append.
      * intros other Hne. unfold GetEvents. cbn [session_events].
        rewrite filter_app, filter_cons_False by done.
        by rewrite filter_nil, app_nil_r.
      * intros [_ _ _ _ _ Hcnt]. eapply Forall_impl; [exact Hcnt|].
        simpl. intros; lia.
  - destruct (marshal_payload payload) as [err|payloadJSON].
    + split; [done|]. by intros [[? ?] _].
    + case_decide; cbn [fst]; split; try done; [by eauto|].
      by intros [_ ?].
Qed.

Lemma X20_RecordEvent_effect_witness :
  let s := NewSession 1 "owner" "repo" 42 in
  let db := snd (Create s empty_db) in
  let refused := Some (payload_of make_chan_int) in
  let rendered := Some (payload_of 42) in
  (marshal_payload refused =
     inl (mkJsonError "json: unsupported type: chan int") ∧
   RecordEvent 2 (ID s) EventTypeError refused db =
     (Some (ErrMarshalPayload
              (mkJsonError "json: unsupported type: chan int")), db)) ∧
  (marshal_payload rendered = inr "42" ∧
   ¬ Exists (same_id "nobody-none-issue-1") (sessions db) ∧
   RecordEvent 2 "nobody-none-issue-1" EventTypeError rendered db =
     (Some (ErrRecordEvent SqlForeignKeyFailed), db)) ∧
  (Exists (same_id (ID s)) (sessions db) ∧
   fst (RecordEvent 2 (ID s) EventTypeError rendered db) = None ∧
   session_events (snd (RecordEvent 2 (ID s) EventTypeError rendered db)) =
     [mkSessionEvent 1 (ID s) EventTypeError "42" 2]).
Proof.
  intros s db refused rendered.
  assert (¬ Exists (same_id "nobody-none-issue-1") (sessions db)) as Hno.
  { apply (bool_decide_unpack _). vm_compute. exact I. }
  assert (Exists (same_id (ID s)) (sessions db)) as Hyes.
  { apply (bool_decide_unpack _). vm_compute. exact I. }
  split_and!; [reflexivity| |reflexivity|exact Hno| |exact Hyes| |].
  - destruct (X20_RecordEvent_effect 2 (ID s) EventTypeError refused db)
      as (H & _ & _).
    by apply H.
  - destruct (X20_RecordEvent_effect 2 "nobody-none-issue-1" EventTypeError
                rendered db) as (_ & H & _).
    destruct (H "42") as [H' _]; [done|]. by apply H'.
  - destruct (X20_RecordEvent_effect 2 (ID s) EventTypeError rendered db)
      as (_ & H & _).
    destruct (H "42") as [_ H']; [done|]. by destruct (H' Hyes).
  - destruct (X20_RecordEvent_effect 2 (ID s) EventTypeError rendered db)
      as (_ & H & _).
    destruct (H "42") as [_ H']; [done|].
    destruct (H' Hyes) as (_ & _ & -> & _). reflexivity.
Defined.

(** X21. [GetEvents] returns the events of the session and no other, each
    once, in ascending order of their time. Where the invariant of the
    store holds, a session that is not stored has no events. *)
Theorem X21_GetEvents_sorted_complete (sessionID : string) (db : DB) :
  GetEvents sessionID db ≡ₚ
    filter (λ ev, EvSessionID ev = sessionID) (session_events db) ∧
  (∀ ev, ev ∈ GetEvents sessionID db ↔
         ev ∈ session_events db ∧ EvSessionID ev = sessionID) ∧
  StronglySorted created_at_asc (GetEvents sessionID db) ∧
  (db_wf db → ¬ Exists (same_id sessionID) (sessions db) →
   GetEvents sessionID db = []).
Proof.
  split_and!.
  - apply merge_sort_Permutation.
  - apply GetEvents_elem_of.
  - apply StronglySorted_merge_sort; apply _.
  - intros [_ _ _ Href _ _] Hex. unfold GetEvents.
    rewrite (proj1 (filter_none _ _)); [done|].
    rewrite Exists_exists. intros (ev & Hin & Hid).
    rewrite Forall_forall in Href. specialize (Href ev Hin).
    by rewrite Hid in Href.
Qed.

Lemma X21_GetEvents_sorted_complete_witness :
  GetEvents "owner-repo-issue-42" empty_db = [].
Proof.
  destruct (X21_GetEvents_sorted_complete "owner-repo-issue-42" empty_db)
    as (_ & _ & _ & H).
  apply H; [apply db_wf_empty|]. intros Hex. inversion Hex.
Defined.

(** ** List and Count *)

Lemma take_drop_sublist {A} (n m : nat) (l : list A) :
  take n (drop m l) `sublist_of` l.
Proof.
  transitivity (drop m l); [apply sublist_take | apply sublist_drop].
Qed.

Lemma sql_limit_offset_sublist (f : SessionFilter) (rows : list Session) :
  sql_limit_offset f rows `sublist_of` rows.
Proof.
  rewrite sql_limit_offset_eq. case_decide; [|done]. apply take_drop_sublist.
Qed.

(** X22. Bounds of [List]. Every session that [List] returns is stored and
    satisfies the conditions of the filter, whatever the limit and the
    offset. [List] never returns more sessions than [Count] counts, nor more
    than a positive limit; without a positive limit it returns as many as
    [Count] counts. [Count] is at least 0 and at most the number of stored
    sessions. *)
Theorem X22_List_bounds (f : SessionFilter) (db : DB) :
  (∀ row, row ∈ List f db → row ∈ sessions db ∧ matches f row) ∧
  Z.of_nat (length (List f db)) ≤ Count f db ∧
  (0 < Limit f → Z.of_nat (length (List f db)) ≤ Limit f) ∧
  (Limit f ≤ 0 → Z.of_nat (length (List f db)) = Count f db) ∧
  0 ≤ Count f db ≤ Z.of_nat (length (sessions db)).
Proof.
  assert (List f db `sublist_of`
            merge_sort last_activity_desc (filter (matches f) (sessions db)))
    as Hsub.
  { unfold List. rewrite filter_where_matches.
    apply sql_limit_offset_sublist. }
  assert (Count f db = Z.of_nat (length (filter (matches f) (sessions db))))
    as HCount by (unfold Count; by rewrite filter_where_matches).
  split_and!.
  - intros row Hin. eapply elem_of_sublist in Hin; [|exact Hsub].
    rewrite merge_sort_Permutation in Hin.
    apply list_elem_of_filter in Hin. tauto.
  - rewrite HCount. apply sublist_length in Hsub.
    rewrite merge_sort_Permutation in Hsub. lia.
  - intros Hl. unfold List. rewrite sql_limit_offset_eq.
    rewrite decide_True by done. rewrite length_take. lia.
  - intros Hl. rewrite List_unlimited by done.
    by rewrite merge_sort_Permutation.
  - rewrite HCount. lia.
  - rewrite HCount. pose proof (length_filter (matches f) (sessions db)). lia.
Qed.

Lemma X22_List_bounds_witness :
  let db := snd (Create (NewSession 2 "owner" "repo" 43)
                   (snd (Create (NewSession 1 "owner" "repo" 42) empty_db))) in
  Z.of_nat (length (List (mkSessionFilter "" "" None false 1 0) db)) ≤ 1.
Proof.
  intros db.
  destruct (X22_List_bounds (mkSessionFilter "" "" None false 1 0) db)
    as (_ & _ & H & _).
  apply H. reflexivity.
Defined.

(** ** Lookups in a database that satisfies the constraints *)

Lemma filter_unique_key {A K} `{EqDecision K} (f : A → K) (l : list A)
    (s : A) :
  NoDup (f <$> l) → s ∈ l → filter (λ r, f r = f s) l = [s].
Proof.
  induction l as [|a l IH]; intros Hnd Hin; [by apply elem_of_nil in Hin|].
  rewrite fmap_cons in Hnd. apply NoDup_cons in Hnd as [Hnotin Hnd].
  apply elem_of_cons in Hin as [->|Hin].
  - rewrite filter_cons_True by done. f_equal.
    apply filter_none. rewrite Exists_exists. intros (r & Hr & Heq).
    apply Hnotin. rewrite <- Heq. by apply list_elem_of_fmap_2.
  - rewrite filter_cons_False; [by apply IH|].
    intros Heq. apply Hnotin. rewrite Heq. by apply list_elem_of_fmap_2.
Qed.

Lemma head_filter_elem {A} (P : A → Prop) `{!∀ x, Decision (P x)}
    (l : list A) (s : A) :
  head (filter P l) = Some s → s ∈ l ∧ P s.
Proof.
  intros Hhead. apply head_Some_elem_of in Hhead.
  apply list_elem_of_filter in Hhead. tauto.
Qed.

Lemma Get_wf (id : string) (db : DB) (s : Session) :
  db_wf db → (Get id db = Some s ↔ s ∈ sessions db ∧ ID s = id).
Proof.
  intros [Hids _ _ _ _ _]. unfold Get. split.
  - intros H. apply head_filter_elem in H. unfold same_id in H. tauto.
  - intros [Hin <-].
    assert (filter (same_id (ID s)) (sessions db) = [s]) as ->; [|done].
    rewrite <- (filter_unique_key ID (sessions db) s Hids Hin).
    by apply list_filter_iff.
Qed.

Lemma GetByIssue_wf (owner repo : string) (n : Z) (db : DB) (s : Session) :
  db_wf db →
  (GetByIssue owner repo n db = Some s ↔
   s ∈ sessions db ∧ same_issue owner repo n s).
Proof.
  intros [_ Hissues _ _ _ _]. unfold GetByIssue. split.
  - intros H. apply head_filter_elem in H. tauto.
  - intros [Hin (<- & <- & <-)].
    assert (filter (same_issue (RepoOwner s) (RepoName s) (IssueNumber s))
                   (sessions db) = [s]) as ->; [|done].
    rewrite <- (filter_unique_key issue_key (sessions db) s Hissues Hin).
    apply list_filter_iff. intros r. unfold same_issue, issue_key. split.
    + by intros (-> & -> & ->).
    + by intros [= -> -> ->].
Qed.

(** X29. In a database that satisfies the constraints the two lookups are
    exact and agree: [Get id] returns a session exactly when that session is
    stored under that id, [GetByIssue] exactly when it is stored under that
    triple, and a session found by its id is the one found by its triple,
    and conversely. *)
Theorem X29_lookups_agree (db : DB) (s : Session) :
  db_wf db →
  (∀ id, Get id db = Some s ↔ s ∈ sessions db ∧ ID s = id) ∧
  (∀ owner repo n,
     GetByIssue owner repo n db = Some s ↔
     s ∈ sessions db ∧ same_issue owner repo n s) ∧
  (Get (ID s) db = Some s ↔
   GetByIssue (RepoOwner s) (RepoName s) (IssueNumber s) db = Some s).
Proof.
  intros Hwf. split_and!.
  - intros id. by apply Get_wf.
  - intros owner repo n. by apply GetByIssue_wf.
  - rewrite Get_wf, GetByIssue_wf by done. unfold same_issue. tauto.
Qed.

Lemma X29_lookups_agree_witness :
  let s := NewSession 1 "owner" "repo" 42 in
  let db := snd (Create s empty_db) in
  Get (ID s) db = Some s ↔ GetByIssue "owner" "repo" 42 db = Some s.
Proof.
  intros s db.
  apply (X29_lookups_agree db s). apply Create_wf, db_wf_empty.
Defined.

(** X30. A deleted session can be created again: in a database that
    satisfies the constraints, after [Delete] of the id of a stored session,
    [Create] of any valid session with that id and the triple of the deleted
    one succeeds, and no event of the deleted session comes back with it. *)
Theorem X30_Delete_then_Create (db : DB) (old sess : Session) :
  db_wf db →
  Get (ID sess) db = Some old →
  Validate sess = None →
  issue_key sess = issue_key old →
  let db1 := snd (Delete (ID sess) db) in
  fst (Delete (ID sess) db) = None ∧
  fst (Create sess db1) = None ∧
  Get (ID sess) (snd (Create sess db1)) = Some sess ∧
  GetEvents (ID sess) (snd (Create sess db1)) = [].
Proof.
  intros Hwf Hget Hv Hkey db1. subst db1.
  pose proof Hwf as [_ Hissues _ _ _ _].
  apply (Get_wf _ _ _ Hwf) in Hget as [Hold Hid].
  assert (Exists (same_id (ID sess)) (sessions db)) as Hex
    by (apply Exists_exists; by exists old).
  rewrite (Delete_found _ _ Hex). cbn [fst snd]. split; [done|].
  set (db1 := mkDB _ _ _).
  assert (¬ Exists (same_id (ID sess)) (sessions db1)) as Hnoid.
  { rewrite Exists_exists. intros (r & Hr & Hrid).
    apply list_elem_of_filter in Hr as [Hne _]. done. }
  assert (¬ Exists (same_issue (RepoOwner sess) (RepoName sess)
                      (IssueNumber sess)) (sessions db1)) as Hnoissue.
  { rewrite Exists_exists. intros (r & Hr & Hsame).
    apply list_elem_of_filter in Hr as [Hne Hr].
    assert (issue_key r = issue_key old) as Hk.
    { rewrite <- Hkey. unfold issue_key.
      by destruct Hsame as (-> & -> & ->). }
    pose proof (filter_unique_key issue_key (sessions db) old Hissues Hold)
      as Huniq.
    assert (r ∈ filter (λ r0, issue_key r0 = issue_key old) (sessions db))
      as Hrin by (by apply list_elem_of_filter).
    rewrite Huniq in Hrin. apply list_elem_of_singleton in Hrin as ->.
    unfold same_id in Hne. done. }
  rewrite (Create_fresh sess db1 Hv Hnoid Hnoissue). cbn [fst snd].
  split_and!; [done| |].
  - unfold Get. cbn [sessions].
    rewrite Get_app, (proj1 (filter_none _ _) Hnoid). simpl.
    by rewrite decide_True.
  - unfold GetEvents. cbn [session_events db1].
    rewrite (proj1 (filter_none _ _)); [done|].
    rewrite Exists_exists. intros (ev & Hin & Hevid).
    apply list_elem_of_filter in Hin as [Hne _]. done.
Qed.

Lemma X30_Delete_then_Create_witness :
  let s := NewSession 1 "owner" "repo" 42 in
  let db := snd (RecordEvent 2 (ID s) EventTypePhaseChange None
                   (snd (Create s empty_db))) in
  let again := NewSession 3 "owner" "repo" 42 in
  fst (Create again (snd (Delete (ID again) db))) = None ∧
  GetEvents (ID again) (snd (Create again (snd (Delete (ID again) db)))) = [].
Proof.
  intros s db again.
  destruct (X30_Delete_then_Create db s again) as (_ & H1 & _ & H2).
  - apply RecordEvent_wf, Create_wf, db_wf_empty.
  - reflexivity.
  - reflexivity.
  - reflexivity.
  - by split.
Defined.

(* ===================================================================== *)
(** * Properties of the session commands                                  *)
(* ===================================================================== *)

Example sessionListFilter_ex :
  sessionListFilter "acme/widgets" "In_Review" true 5 =
    inr (mkSessionFilter "acme" "widgets" (Some PhaseInReview) true 5 0) ∧
  sessionListFilter "acme" "" false 0 =
    inr (mkSessionFilter "acme" "" None false 0 0) ∧
  sessionListFilter "acme/" "" false 0 =
    inr (mkSessionFilter "acme" "" None false 0 0) ∧
  sessionListFilter "a/b/c" "" false 0 =
    inr (mkSessionFilter "a" "b/c" None false 0 0) ∧
  sessionListFilter "" "In Review" false 0 = inl (mkParseError "In Review").
Proof. vm_compute. repeat split; reflexivity. Qed.

Example truncate_ex :
  truncate "owner-repo-issue-42" 40 = Some "owner-repo-issue-42" ∧
  truncate "owner-repo-issue-42" 10 = Some "owner-r..." ∧
  truncate "owner-repo-issue-42" 3 = Some "own" ∧
  truncate "owner-repo-issue-42" (-1) = None.
Proof. vm_compute. repeat split; reflexivity. Qed.

Lemma cut_slash_no_slash (s : string) :
  no_slash s = true → cut_slash s = None.
Proof.
  induction s as [|c s IH]; simpl; [done|].
  rewrite andb_true_iff, negb_true_iff, bool_decide_eq_false.
  intros [Hc Hs]. rewrite decide_False by done. by rewrite IH.
Qed.

Lemma cut_slash_first (owner name : string) :
  no_slash owner = true →
  cut_slash (owner +:+ "/" +:+ name) = Some (owner, name).
Proof.
  induction owner as [|c owner IH]; simpl; [done|].
  rewrite andb_true_iff, negb_true_iff, bool_decide_eq_false.
  intros [Hc Ho]. rewrite decide_False by done. by rewrite IH.
Qed.

Lemma sessionListFilter_repo (owner name : string) (a : bool) (l : Z) :
  no_slash owner = true →
  sessionListFilter (owner +:+ "/" +:+ name) "" a l =
  inr (mkSessionFilter owner name None a l 0).
Proof.
  intros Ho. unfold sessionListFilter, strings_SplitN2.
  rewrite (cut_slash_first owner name Ho).
  rewrite (decide_True (P := owner +:+ "/" +:+ name ≠ ""))
    by (apply append_nonempty_r; discriminate).
  by rewrite decide_False by (by intros H).
Qed.

(** X23. The filter of [session list]. A [--repo] of the form owner/name,
    with no slash in the owner, filters by that owner and that name; one
    without a slash filters by owner only. The filter has the limit and the
    active flag as given and its offset is always 0. So a stored session
    whose owner has no slash is selected by the filter made from its own
    full name. *)
Theorem X23_sessionListFilter
  (owner name repo phase : string) (a : bool) (l : Z) :
  (no_slash owner = true →
   sessionListFilter (owner +:+ "/" +:+ name) "" a l =
   inr (mkSessionFilter owner name None a l 0)) ∧
  (no_slash repo = true →
   sessionListFilter repo "" a l = inr (mkSessionFilter repo "" None a l 0)) ∧
  (∀ f, sessionListFilter repo phase a l = inr f →
        Offset f = 0 ∧ Limit f = l ∧ ActiveOnly f = a) ∧
  (∀ s : Session,
     no_slash (RepoOwner s) = true →
     ∃ f, sessionListFilter (RepoFullName s) "" false l = inr f ∧
          matches f s).
Proof.
  split_and!.
  - apply sessionListFilter_repo.
  - intros Hr. unfold sessionListFilter, strings_SplitN2.
    rewrite (cut_slash_no_slash repo Hr).
    rewrite (decide_False (P := "" ≠ "")) by (by intros H).
    case_decide as Hrepo; [done|]. by rewrite Hrepo.
  - intros f. unfold sessionListFilter, strings_SplitN2.
    destruct (decide (repo ≠ "")); [destruct (cut_slash repo) as [[? ?]|]|];
      (destruct (decide (phase ≠ ""));
       [destruct (ParsePhase phase) as [p [e|]]|]);
      intros [= <-]; done.
  - intros s Hs. eexists. split.
    + unfold RepoFullName. by apply sessionListFilter_repo.
    + unfold matches. simpl. split_and!; done.
Qed.

Lemma X23_sessionListFilter_witness :
  sessionListFilter "my-org/my-repo" "" true 10 =
  inr (mkSessionFilter "my-org" "my-repo" None true 10 0).
Proof.
  destruct (X23_sessionListFilter "my-org" "my-repo" "" "" true 10)
    as [H _].
  apply H. reflexivity.
Defined.

(** ** Statistics *)

Lemma phase_count_eq (p : Phase) (db : DB) :
  phase_count p db =
  Z.of_nat (length (filter (λ row, SPhase row = p) (sessions db))).
Proof.
  unfold phase_count, Count. rewrite filter_where_matches. do 2 f_equal.
  apply list_filter_iff. intros row. unfold matches. simpl.
  intuition congruence.
Qed.

Lemma stats_active_eq (db : DB) :
  stats_active db =
  Z.of_nat (length (filter (λ row, SPhase row ≠ PhaseCompleted ∧
                                   SPhase row ≠ PhaseError) (sessions db))).
Proof.
  unfold stats_active, Count. rewrite filter_where_matches. do 2 f_equal.
  apply list_filter_iff. intros row. unfold matches. simpl.
  intuition congruence.
Qed.

Lemma stats_total_eq (db : DB) :
  stats_total db =
  Z.of_nat (length (filter (λ row, IsValid (SPhase row) = true)
                           (sessions db))).
Proof.
  unfold stats_total, AllPhases. cbn [fold_left].
  rewrite !phase_count_eq. destruct db as [rows evs n]. cbn [sessions].
  induction rows as [|row rows IH]; [done|].
  rewrite !filter_cons.
  destruct (IsValid (SPhase row)) eqn:Hv.
  - rewrite (decide_True (P := true = true)) by done. cbn [length].
    apply IsValid_AllPhases in Hv. unfold AllPhases in Hv.
    rewrite !elem_of_cons, elem_of_nil in Hv.
    destruct_or!; try done; rewrite Hv;
      unfold PhasePlanning, PhaseAwaitingApproval, PhaseImplementing,
        PhaseInReview, PhaseRevising, PhaseCompleted, PhaseError in *;
      repeat first [rewrite decide_True by done
                   |rewrite decide_False by done];
      cbn [length]; lia.
  - rewrite (decide_False (P := false = true)) by done.
    unfold IsValid in Hv.
    repeat (case_decide; [discriminate Hv|]).
    repeat (rewrite decide_False by done). lia.
Qed.

Lemma active_partition (rows : list Session) :
  (length (filter (λ row, SPhase row ≠ PhaseCompleted ∧
                          SPhase row ≠ PhaseError) rows) +
   length (filter (λ row, SPhase row = PhaseCompleted) rows) +
   length (filter (λ row, SPhase row = PhaseError) rows))%nat =
  length rows.
Proof.
  induction rows as [|row rows IH]; [done|].
  rewrite !filter_cons.
  destruct (decide (SPhase row = PhaseCompleted)) as [Hc|Hc].
  - rewrite decide_False by tauto.
    rewrite (decide_False (P := SPhase row = PhaseError))
      by (rewrite Hc; discriminate).
    cbn [length]. lia.
  - destruct (decide (SPhase row = PhaseError)) as [He|He].
    + rewrite decide_False by tauto. cbn [length]. lia.
    + rewrite decide_True by tauto. cbn [length]. lia.
Qed.

(** X24. The numbers of [session stats]. The total, which the command gets
    by adding the counts of the seven phases, is the number of stored
    sessions whose phase is one of the seven; where the invariant of the
    store holds it is the number of all stored sessions. The count of active
    sessions, the count of [completed] and the count of [error] add up to
    the number of stored sessions. *)
Theorem X24_stats (db : DB) :
  stats_total db =
    Z.of_nat (length (filter (λ row, IsValid (SPhase row) = true)
                             (sessions db))) ∧
  stats_active db + phase_count PhaseCompleted db + phase_count PhaseError db
    = Z.of_nat (length (sessions db)) ∧
  (db_wf db →
   stats_total db = Z.of_nat (length (sessions db)) ∧
   stats_active db =
     stats_total db - phase_count PhaseCompleted db
                    - phase_count PhaseError db).
Proof.
  assert (stats_active db + phase_count PhaseCompleted db +
          phase_count PhaseError db = Z.of_nat (length (sessions db)))
    as Hpart.
  { rewrite stats_active_eq, !phase_count_eq.
    pose proof (active_partition (sessions db)). lia. }
  split_and!; [apply stats_total_eq | done |].
  intros [_ _ Hvalid _ _ _].
  assert (stats_total db = Z.of_nat (length (sessions db))) as Htotal.
  { rewrite stats_total_eq, filter_all; [done|].
    eapply Forall_impl; [exact Hvalid|]. simpl. intros row Hrow.
    by apply Validate_None in Hrow as (_ & _ & _ & _ & ? & _). }
  split; [done | lia].
Qed.

Lemma X24_stats_witness :
  let db := snd (Create (NewSession 1 "owner" "repo" 42) empty_db) in
  stats_total db = Z.of_nat (length (sessions db)).
Proof.
  intros db. destruct (X24_stats db) as (_ & _ & H).
  apply H. apply Create_wf, db_wf_empty.
Defined.

(** ** truncate *)

Lemma length_string_take (n : nat) (s : string) :
  String.length (string_take n s) = (n `min` String.length s)%nat.
Proof.
  revert s. induction n as [|n IH]; intros [|c s]; simpl; try done.
  by rewrite IH.
Qed.

Lemma length_string_append (a b : string) :
  String.length (a +:+ b) = (String.length a + String.length b)%nat.
Proof. induction a as [|c a IH]; simpl; [done|]. by rewrite IH. Qed.

(** X25. [truncate s maxLen] with [maxLen] at least 0 returns a string of
    [min (len s) maxLen] bytes, which is [s] itself exactly when [s] has at
    most [maxLen] bytes; a longer [s] is cut to [maxLen] bytes, the last
    three of them dots when [maxLen] is at least 4. With a negative [maxLen]
    the call panics, whatever the string. *)
Theorem X25_truncate (s : string) (maxLen : Z) :
  (maxLen < 0 → truncate s maxLen = None) ∧
  (0 ≤ maxLen →
   ∃ t, truncate s maxLen = Some t ∧
        Z.of_nat (String.length t) = Z.of_nat (String.length s) `min` maxLen ∧
        (t = s ↔ Z.of_nat (String.length s) ≤ maxLen) ∧
        (maxLen < Z.of_nat (String.length s) → 4 ≤ maxLen →
         t = string_take (Z.to_nat (maxLen - 3)) s +:+ "...")).
Proof.
  unfold truncate. split.
  - intros Hneg. rewrite decide_False by lia.
    by rewrite !decide_True by lia.
  - intros Hpos.
    destruct (decide (Z.of_nat (String.length s) ≤ maxLen)) as [Hle|Hgt].
    { exists s. split_and!; [done | lia | done | lia]. }
    destruct (decide (maxLen < 4)) as [H4|H4].
    + rewrite decide_False by lia. eexists. split; [done|].
      assert (String.length (string_take (Z.to_nat maxLen) s) =
              Z.to_nat maxLen) as Hlen
        by (rewrite length_string_take; lia).
      split_and!; [lia | | lia].
      split; [|done]. intros Heq. rewrite Heq in Hlen. lia.
    + eexists. split; [done|].
      assert (String.length
                (string_take (Z.to_nat (maxLen - 3)) s +:+ "...") =
              Z.to_nat maxLen) as Hlen.
      { rewrite length_string_append, length_string_take. simpl. lia. }
      split_and!; [lia | | done].
      split; [|done]. intros Heq. rewrite Heq in Hlen. lia.
Qed.

Lemma X25_truncate_witness :
  truncate "owner-repo-issue-42" (-1) = None ∧
  ∃ t, truncate "owner-repo-issue-42" 10 = Some t ∧
       Z.of_nat (String.length t) = 10.
Proof.
  destruct (X25_truncate "owner-repo-issue-42" (-1)) as [Hneg _].
  destruct (X25_truncate "owner-repo-issue-42" 10) as [_ Hpos].
  split; [apply Hneg; lia|].
  destruct Hpos as (t & Ht & Hlen & _); [lia|].
  exists t. split; [done|]. rewrite Hlen. reflexivity.
Defined.

(* ===================================================================== *)
(** * Further properties of the migration runner                          *)
(* ===================================================================== *)

Lemma bootstrap_objects (db : Database) :
  objects (create_if_not_exists "schema_migrations" db) = objects db.
Proof.
  unfold create_if_not_exists. rewrite decide_True by done.
  by destruct (schema_migrations db).
Qed.

Lemma bootstrap_recorded_versions (db : Database) :
  recorded_versions (create_if_not_exists "schema_migrations" db) =
  recorded_versions db.
Proof. unfold recorded_versions. by rewrite bootstrap_table. Qed.

(** The database that a run leaves, whatever the number of calls. *)
Lemma runMigrations_result (calls : nat) (db : Database) :
  snd (runMigrations calls db) = db ∨
  ∃ j, snd (runMigrations calls db) =
       apply_steps (take j (pending (recorded_version db)))
                   (create_if_not_exists "schema_migrations" db).
Proof.
  destruct calls as [|[|calls]].
  - by left.
  - right. exists 0%nat. by rewrite take_0.
  - right. eexists. apply runMigrations_steps.
Qed.

(** X26. [runMigrations] only adds: whatever the number of calls it is
    stopped after, and whether it returns an error or not, every table and
    index that existed still exists, the versions recorded before are still
    recorded, at the head of the list and in the same order, and the table
    [schema_migrations] is not lost. *)
Theorem X26_runMigrations_only_adds (calls : nat) (db : Database) :
  let db' := snd (runMigrations calls db) in
  (∀ name, name ∈ objects db → name ∈ objects db') ∧
  recorded_versions db `prefix_of` recorded_versions db' ∧
  (schema_migrations db ≠ None → schema_migrations db' ≠ None).
Proof.
  intros db'. subst db'.
  destruct (runMigrations_result calls db) as [->|[j ->]].
  { split_and!; done. }
  split_and!.
  - intros name Hin.
    apply (apply_steps_objects _ (take_pending_sorted db j)
             (create_if_not_exists "schema_migrations" db)
             (default [] (schema_migrations db)) name).
    + apply bootstrap_table.
    + apply take_pending_fresh.
    + left. by rewrite bootstrap_objects.
  - rewrite after_steps_recorded_versions. by eexists.
  - intros _. by rewrite after_steps_rows.
Qed.

Lemma X26_runMigrations_only_adds_witness :
  "legacy" ∈ objects (snd (runMigrations 5 (mkDatabase ["legacy"] None))).
Proof.
  destruct (X26_runMigrations_only_adds 5 (mkDatabase ["legacy"] None))
    as (H & _).
  apply H. by left.
Defined.

Lemma pending_cases (v : Z) :
  (v < 1 ∧ pending v = migrations) ∨
  (1 ≤ v < 2 ∧ pending v = drop 1 migrations) ∨
  (2 ≤ v < 3 ∧ pending v = drop 2 migrations) ∨
  (3 ≤ v ∧ pending v = []).
Proof.
  unfold pending, migrations. rewrite !filter_cons, filter_nil. simpl.
  repeat case_decide; try lia; auto 10 with lia.
Qed.

Lemma CurrentVersion_after_run (db : Database) :
  CurrentVersion
    (apply_steps (pending (recorded_version db))
                 (create_if_not_exists "schema_migrations" db)) =
  Some (recorded_version db `max` LatestVersion).
Proof.
  pose proof (after_steps_rows db (length (pending (recorded_version db))))
    as Hrows.
  rewrite firstn_all in Hrows.
  unfold CurrentVersion, sql_current_version. rewrite Hrows. f_equal.
  change LatestVersion with 3.
  pose proof (current_version_bound (default [] (schema_migrations db)))
    as Hbound.
  rewrite <- recorded_version_rows in Hbound.
  assert (∀ b, recorded_version db < b →
            Forall (λ r, r.1 < b) (default [] (schema_migrations db)))
    as Hlt.
  { intros b Hb. eapply Forall_impl; [exact Hbound|]. simpl. intros; lia. }
  destruct (pending_cases (recorded_version db))
    as [[Hv ->]|[[Hv ->]|[[Hv ->]|[Hv ->]]]]; unfold migrations; simpl.
  - match goal with
    | |- context [?r ++ [?a; ?b; ?c]] =>
        change (r ++ [a; b; c]) with (r ++ [a; b] ++ [c])
    end.
    rewrite app_assoc, current_version_snoc; [lia|].
    apply Forall_app. split; [apply Hlt; lia|]. repeat constructor; simpl; lia.
  - match goal with
    | |- context [?r ++ [?a; ?b]] =>
        change (r ++ [a; b]) with (r ++ [a] ++ [b])
    end.
    rewrite app_assoc, current_version_snoc; [lia|].
    apply Forall_app. split; [apply Hlt; lia|]. repeat constructor; simpl; lia.
  - rewrite current_version_snoc; [lia|]. apply Hlt. lia.
  - rewrite app_nil_r, <- recorded_version_rows. lia.
Qed.

(** X27. After a run that nothing interrupts, [CurrentVersion] is the
    latest version, 3, or the version that was recorded if that was newer;
    no migration is left to apply; and a database that was at version 0 has
    all the tables and indexes of the three migrations. *)
Theorem X27_CurrentVersion_after_run (calls : nat) (db : Database) :
  (all_calls ≤ calls)%nat →
  let db' := snd (runMigrations calls db) in
  CurrentVersion db' = Some (recorded_version db `max` LatestVersion) ∧
  pending (recorded_version db') = [] ∧
  (recorded_version db < 1 →
   ∀ m name, m ∈ migrations → name ∈ Up m →
             name ≠ "schema_migrations" → name ∈ objects db').
Proof.
  intros Hcalls db'. subst db'.
  rewrite (runMigrations_complete calls db Hcalls). cbn [snd].
  split_and!.
  - apply CurrentVersion_after_run.
  - pose proof (after_steps_pending db
                  (length (pending (recorded_version db)))) as H.
    rewrite firstn_all, drop_all in H. exact H.
  - intros Hv m name Hm Hname Hne.
    pose proof (after_steps_objects db
                  (length (pending (recorded_version db))) m name) as H.
    rewrite firstn_all in H. apply H; [|done..].
    apply pending_elem_of. split; [done|].
    unfold migrations in Hm. rewrite !elem_of_cons, elem_of_nil in Hm.
    destruct_or!; try done; subst; simpl; lia.
Qed.

Lemma X27_CurrentVersion_after_run_witness :
  CurrentVersion (snd (runMigrations all_calls (mkDatabase [] None))) =
  Some 3.
Proof.
  destruct (X27_CurrentVersion_after_run all_calls (mkDatabase [] None))
    as [H _]; [done|].
  rewrite H. reflexivity.
Defined.

(** ** The migration an error names *)

Lemma apply_migrations_error (ms : list Migration) (cur : Z) :
  StronglySorted version_lt ms →
  (∀ m, m ∈ ms → Version m = 3 → Up m = ["schema_migrations"]) →
  ∀ (calls : nat) (db : Database) rows (e : MigrateError),
    schema_migrations db = Some rows →
    (∀ m, m ∈ ms → cur < Version m → Forall (λ r, r.1 < Version m) rows) →
    fst (apply_migrations ms cur calls db) = Some e →
    let p := filter (λ m, cur < Version m) ms in
    ∃ m, p !! steps_done p calls = Some m ∧
         error_version e = Some (Version m).
Proof.
  induction 1 as [|m rest Hsorted IH Hm];
    intros Hboot calls db rows e Htab Hfresh Herr.
  { discriminate Herr. }
  assert (∀ m', m' ∈ rest → Version m' = 3 → Up m' = ["schema_migrations"])
    as Hboot' by (intros m' Hin; apply Hboot; by right).
  cbn [apply_migrations] in Herr.
  destruct (decide (Version m ≤ cur)) as [Hle|Hgt].
  { rewrite filter_cons_False by lia.
    apply (IH Hboot' calls db rows e Htab); [|done].
    intros m' Hin. apply Hfresh. by right. }
  rewrite filter_cons_True by lia.
  assert (Forall (λ r, r.1 < Version m) rows) as Hrows
    by (apply Hfresh; [by left | lia]).
  assert (∀ m', m' ∈ rest → cur < Version m' →
            Forall (λ r, r.1 < Version m')
                   (rows ++ [(Version m, Description m)])) as Hfresh'.
  { intros m' Hin Hlt. apply Forall_app. split.
    - apply Hfresh; [by right | done].
    - constructor; [|constructor]. simpl.
      rewrite Forall_forall in Hm. by apply Hm. }
  pose proof (apply_step_fresh m db rows Htab Hrows) as Hstep.
  cbn [steps_done]. unfold step_calls.
  destruct (decide (Version m = 3)) as [H3|H3].
  - assert (sql_insert_version m db = Some (apply_step m db)) as Hins.
    { rewrite Hstep, (Hboot m) by (done || by left).
      unfold exec_script. simpl. rewrite (bootstrap_idem db rows Htab).
      by apply sql_insert_version_fresh. }
    destruct calls as [|calls1]; rewrite ?Hins in Herr.
    { rewrite decide_False by lia. exists m. split; [done|].
      by injection Herr as <-. }
    rewrite decide_True by lia.
    replace (S calls1 - 1)%nat with calls1 by lia.
    apply (IH Hboot' calls1 (apply_step m db)
             (rows ++ [(Version m, Description m)]) e); try done.
    by rewrite Hstep.
  - assert (sql_insert_version m (exec_script (Up m) db) =
            Some (apply_step m db)) as Hins.
    { rewrite Hstep. apply sql_insert_version_fresh; [|done].
      by apply exec_script_table. }
    destruct calls as [|[|[|[|calls4]]]]; rewrite ?Hins in Herr.
    1-4: rewrite decide_False by lia.
    1-4: exists m; split; [done|]; by injection Herr as <-.
    rewrite decide_True by lia.
    replace (S (S (S (S calls4))) - 4)%nat with calls4 by lia.
    apply (IH Hboot' calls4 (apply_step m db)
             (rows ++ [(Version m, Description m)]) e); try done.
    by rewrite Hstep.
Qed.

Lemma sorted_filter_below (p : list Migration) (j : nat) (m : Migration) :
  StronglySorted version_lt p → p !! j = Some m →
  filter (λ m', Version m' < Version m) p = take j p.
Proof.
  intros Hsorted Hj.
  rewrite <- (take_drop_middle p j m Hj) in Hsorted |- * at 1.
  apply StronglySorted_app in Hsorted as (Hcross & _ & Htail).
  apply StronglySorted_cons in Htail as [Hafter _].
  rewrite filter_app, filter_cons_False by lia.
  rewrite (filter_all _ (take j p)), (proj1 (filter_none _ _)), app_nil_r;
    [done| |].
  - rewrite Exists_exists. intros (m' & Hin & Hlt).
    rewrite Forall_forall in Hafter. specialize (Hafter m' Hin).
    unfold version_lt in Hafter. lia.
  - apply Forall_forall. intros m' Hin. apply (Hcross m' m Hin). by left.
Qed.

(** X28. An error of [runMigrations] that names a version names the first
    migration that is not applied: that version is newer than the version
    that was recorded, it is not recorded in the database the run leaves,
    and the versions recorded by the run are exactly those of the pending
    migrations below it. *)
Theorem X28_error_names_first_unapplied
  (calls : nat) (db : Database) (e : MigrateError) (v : Z) :
  fst (runMigrations calls db) = Some e →
  error_version e = Some v →
  let db' := snd (runMigrations calls db) in
  (v ∈ Version <$> pending (recorded_version db)) ∧
  (v ∉ recorded_versions db') ∧
  recorded_versions db' =
    recorded_versions db ++
    (Version <$> filter (λ m, Version m < v) (pending (recorded_version db))).
Proof.
  intros Herr Hv db'. subst db'.
  destruct calls as [|[|calls]].
  { injection Herr as <-. discriminate Hv. }
  { injection Herr as <-. discriminate Hv. }
  destruct (runMigrations_steps calls db) as [Hsnd _]. rewrite Hsnd.
  unfold runMigrations in Herr. rewrite current_version_bootstrap in Herr.
  destruct (apply_migrations_error migrations (recorded_version db)
              migrations_sorted migrations_bootstrap calls
              (create_if_not_exists "schema_migrations" db)
              (default [] (schema_migrations db)) e)
    as (m & Hj & Hm); [apply bootstrap_table | | done |].
  { intros m' _ Hlt. by apply rows_below_pending. }
  fold (pending (recorded_version db)) in Hj.
  assert (v = Version m) as -> by congruence.
  pose proof (pending_sorted (recorded_version db)) as Hsorted.
  rewrite (sorted_filter_below _ _ m Hsorted Hj).
  assert (m ∈ pending (recorded_version db)) as Hin
    by (by eapply list_elem_of_lookup_2).
  split_and!.
  - by apply list_elem_of_fmap_2.
  - rewrite after_steps_recorded_versions, elem_of_app.
    intros [Hold|Hnew].
    + apply pending_elem_of in Hin as [_ Hlt].
      pose proof (rows_below_pending db m Hlt) as Hrows.
      unfold recorded_versions in Hold.
      apply list_elem_of_fmap in Hold as (r & Hr & Hrin).
      rewrite Forall_forall in Hrows. specialize (Hrows r Hrin). lia.
    + rewrite <- (sorted_filter_below _ _ m Hsorted Hj) in Hnew.
      apply list_elem_of_fmap in Hnew as (m' & Heq & Hm').
      apply list_elem_of_filter in Hm' as [Hlt _]. lia.
  - apply after_steps_recorded_versions.
Qed.

Lemma X28_error_names_first_unapplied_witness :
  recorded_versions (snd (runMigrations 9 (mkDatabase [] None))) = [1].
Proof.
  destruct (X28_error_names_first_unapplied 9 (mkDatabase [] None)
              (ErrCommitMigration 2) 2) as (_ & _ & H);
    [reflexivity | reflexivity |].
  rewrite H. reflexivity.
Defined.
